(** * RPi compact weather station: the logger loop of [weather-logger.py]

    A shallow embedding of the scheduling and persistence loop: the wall
    clock and its text renderings, the [readings] table with the three SQL
    statements the script issues, the helpers [log_alert],
    [export_last_week], [push_git] and [purge_old_data], one iteration of the
    [while True] body, and the [KeyboardInterrupt] handler.

    Everything the script obtains from outside (clock reads, sensor values,
    the outcome of a database, file, socket or subprocess call) is an input of
    the function that performs the call, in program order.  An exception
    raised by such a call is a value of [exn]; state changes made before the
    raise are kept, as in Python.  The readings of [time.monotonic()] are
    binary64 floats, subtracted and compared as Python does. *)

From Stdlib Require Import ZArith List Bool Ascii String Lia.
From Stdlib Require Import Sorted Permutation Mergesort Orders.
From Stdlib Require DecimalString.
From Stdlib Require PrimFloat Uint63.
Import ListNotations.

Local Open Scope string_scope.
Local Open Scope Z_scope.

(** ** Configuration (lines 21-25) *)

Definition LOG_INTERVAL : Z := 60.
Definition DB_FLUSH_INTERVAL : Z := 300.
Definition DB_BATCH_SIZE : nat := 5.
Definition GIT_PUSH_INTERVAL_MINUTES : Z := 30.  (* not read: line 230 has the literal *)
Definition RETENTION_DAYS : Z := 365.

(** ** Wall clock: [datetime] and the renderings the script uses *)

Module Clock.

(** A naive [datetime.datetime], field by field. *)
Record datetime : Set := mkDatetime {
  year : Z; month : Z; day : Z;
  hour : Z; minute : Z; second : Z; microsecond : Z
}.

(** [now.date()] *)
Definition date (d : datetime) : Z * Z * Z := (year d, month d, day d).

Definition date_eqb (a b : Z * Z * Z) : bool :=
  let '(y1, m1, d1) := a in
  let '(y2, m2, d2) := b in
  (y1 =? y2) && (m1 =? m2) && (d1 =? d2).

(** Decimal digits, zero padded. *)
Definition digit (n : Z) : ascii := ascii_of_nat (48 + Z.to_nat (n mod 10)).

Definition pad2 (n : Z) : string :=
  String (digit (n / 10)) (String (digit n) "").

Definition pad4 (n : Z) : string :=
  String (digit (n / 1000)) (String (digit (n / 100)) (pad2 n)).

Definition pad6 (n : Z) : string :=
  String (digit (n / 100000)) (String (digit (n / 10000)) (pad4 n)).

(** [d.isoformat(timespec="seconds")]: [YYYY-MM-DDTHH:MM:SS]. *)
Definition isoformat_seconds (d : datetime) : string :=
  pad4 (year d) ++ "-" ++ pad2 (month d) ++ "-" ++ pad2 (day d) ++ "T" ++
  pad2 (hour d) ++ ":" ++ pad2 (minute d) ++ ":" ++ pad2 (second d).

(** [d.isoformat()]: the fraction is printed only when it is not zero. *)
Definition isoformat (d : datetime) : string :=
  isoformat_seconds d ++
  (if microsecond d =? 0 then "" else "." ++ pad6 (microsecond d)).

(** [d.strftime("%Y-%m-%d_%H_%M")], the identifier of the push window. *)
Definition strftime_interval_id (d : datetime) : string :=
  pad4 (year d) ++ "-" ++ pad2 (month d) ++ "-" ++ pad2 (day d) ++ "_" ++
  pad2 (hour d) ++ "_" ++ pad2 (minute d).

(** [d.strftime('%Y-%m-%d %H:%M')], used in the commit message. *)
Definition strftime_commit (d : datetime) : string :=
  pad4 (year d) ++ "-" ++ pad2 (month d) ++ "-" ++ pad2 (day d) ++ " " ++
  pad2 (hour d) ++ ":" ++ pad2 (minute d).

(** Proleptic Gregorian day number and its inverse, as [datetime] computes
    [d - timedelta(days=n)]: only the date part moves. *)
Definition days_from_civil (y m d : Z) : Z :=
  let y' := if m <=? 2 then y - 1 else y in
  let era := y' / 400 in
  let yoe := y' - era * 400 in
  let mp := (m + 9) mod 12 in
  let doy := (153 * mp + 2) / 5 + d - 1 in
  let doe := yoe * 365 + yoe / 4 - yoe / 100 + doy in
  era * 146097 + doe - 719468.

Definition civil_from_days (z : Z) : Z * Z * Z :=
  let z' := z + 719468 in
  let era := z' / 146097 in
  let doe := z' - era * 146097 in
  let yoe := (doe - doe / 1460 + doe / 36524 - doe / 146096) / 365 in
  let doy := doe - (365 * yoe + yoe / 4 - yoe / 100) in
  let mp := (5 * doy + 2) / 153 in
  let d := doy - (153 * mp + 2) / 5 + 1 in
  let m := if mp <? 10 then mp + 3 else mp - 9 in
  let y := yoe + era * 400 in
  (if m <=? 2 then y + 1 else y, m, d).

(** [d - timedelta(days=n)] *)
Definition minus_days (d : datetime) (n : Z) : datetime :=
  let '(y, m, dd) :=
    civil_from_days (days_from_civil (year d) (month d) (day d) - n) in
  mkDatetime y m dd (hour d) (minute d) (second d) (microsecond d).

End Clock.
Export Clock.

(** ** Readings and the [readings] table (lines 52-65) *)

(** One row: [timestamp TEXT PRIMARY KEY] and four REAL columns.  The REAL
    columns are carried in hundredths, the unit left by [round(_, 2)]. *)
Record Reading : Set := mkReading {
  timestamp : string;
  temp_c : Z;
  temp_f : Z;
  pressure_hpa : Z;
  humidity : Z
}.

Module Store.

(** The table: its rows in rowid order.  [wf] is the PRIMARY KEY
    constraint: no two rows share a timestamp. *)
Definition table : Set := list Reading.

Definition keys (t : table) : list string := map timestamp t.

Definition wf (t : table) : Prop := NoDup (keys t).

Definition has_key (k : string) (t : table) : bool :=
  existsb (fun r => String.eqb (timestamp r) k) t.

(** Number of rows stored under a timestamp. *)
Definition rows_at (k : string) (t : table) : nat :=
  List.length (filter (fun r => String.eqb (timestamp r) k) t).

(** [INSERT OR IGNORE INTO readings VALUES (?, ?, ?, ?, ?)] for one
    parameter tuple: a row whose key is taken is skipped. *)
Definition insert_or_ignore (t : table) (r : Reading) : table :=
  if has_key (timestamp r) t then t else (t ++ [r])%list.

(** [conn.executemany(INSERT OR IGNORE ..., buffer)]: one statement per
    tuple, in list order. *)
Definition executemany_insert (t : table) (rows : list Reading) : table :=
  fold_left insert_or_ignore rows t.

(** [DELETE FROM readings WHERE timestamp < ?]: TEXT compared byte by
    byte. *)
Definition delete_before (cutoff : string) (t : table) : table :=
  filter (fun r => negb (String.ltb (timestamp r) cutoff)) t.

(** Ordering of rows by key, for [ORDER BY timestamp ASC]. *)
Module KeyOrder <: TotalLeBool.
Definition t : Set := Reading.
Definition leb (a b : t) : bool := String.leb (timestamp a) (timestamp b).
Lemma leb_total : forall a b, leb a b = true \/ leb b a = true.
Proof. intros a b. apply String.leb_total. Qed.
End KeyOrder.

Module KeySort := Sort KeyOrder.

(** [SELECT ... FROM readings WHERE timestamp >= ? ORDER BY timestamp ASC] *)
Definition select_since (cutoff : string) (t : table) : list Reading :=
  KeySort.sort (filter (fun r => String.leb cutoff (timestamp r)) t).

End Store.

(** ** Exceptions and the state the script works on *)

(** The exception classes that reach the script.  [KeyboardInterrupt] is the
    only one outside [Exception]. *)
Inductive exn : Set :=
| KeyboardInterrupt
| OSError (msg : string)
| RuntimeError (msg : string)
| SqliteError (msg : string)
| CalledProcessError (msg : string).

(** [isinstance(e, Exception)] *)
Definition is_Exception (e : exn) : bool :=
  match e with KeyboardInterrupt => false | _ => true end.

Definition is_OSError (e : exn) : bool :=
  match e with OSError _ => true | _ => false end.

Definition is_CalledProcessError (e : exn) : bool :=
  match e with CalledProcessError _ => true | _ => false end.

Definition is_KeyboardInterrupt (e : exn) : bool :=
  match e with KeyboardInterrupt => true | _ => false end.

(** [str(e)] *)
Definition str_exn (e : exn) : string :=
  match e with
  | KeyboardInterrupt => ""
  | OSError m | RuntimeError m | SqliteError m | CalledProcessError m => m
  end.

Inductive result (A : Type) : Type :=
| Ok (a : A)
| Raise (e : exn).
Arguments Ok {A} a.
Arguments Raise {A} e.

(** The four timed activities of the loop. *)
Inductive action : Set := Sample | Flush | Purge | Sync.

(** The two places that call [sqlite3.connect]: line 47 and line 94. *)
Inductive conn_id : Set := MainConn | ExportConn.

Inductive git_cmd : Set :=
| GitAdd
| GitCommit (message : string)
| GitPush.

(** What the process did, in program order.  [Fire a] marks the entry into
    the body of the [if] that guards activity [a]; [Connect], [Commit] and
    [Close] are recorded when the call returns; [Probe] and [Git] when the
    call is made. *)
Inductive event : Set :=
| Fire (a : action)
| Connect (c : conn_id)
| Commit (c : conn_id)
| Close (c : conn_id)
| Probe
| Git (cmd : git_cmd).

(** A line of [ALERTS.log]: the time stamp and the message. *)
Definition alert_line : Set := string * string.

(** The export file, as [csv.writer] rows. *)
Inductive cell : Set :=
| Text (s : string)
| Real (hundredths : Z).

Definition csv_row : Set := list cell.

Definition csv_header : csv_row :=
  [Text "timestamp"; Text "temp_c"; Text "temp_f"; Text "pressure_hpa";
   Text "humidity"].

Definition csv_of_reading (r : Reading) : csv_row :=
  [Text (timestamp r); Real (temp_c r); Real (temp_f r);
   Real (pressure_hpa r); Real (humidity r)].

(** Program variables (lines 175-179) and everything outside the process
    that the script reads or writes. *)
Record State : Set := mkState {
  buffer : list Reading;
  last_log : PrimFloat.float;         (* readings of [time.monotonic()] *)
  last_flush : PrimFloat.float;
  last_git_push : option string;
  last_purge_day : option (Z * Z * Z);
  disk : Store.table;                 (* committed contents of weather.db *)
  view : Store.table;                 (* as [conn] sees it: with its open transaction *)
  alerts : list alert_line;           (* ALERTS.log *)
  csv_last_week : option (list csv_row);  (* weather-last-week.csv, if it exists *)
  trace : list event
}.

Definition set_buffer (b : list Reading) (s : State) : State :=
  mkState b (last_log s) (last_flush s) (last_git_push s) (last_purge_day s)
          (disk s) (view s) (alerts s) (csv_last_week s) (trace s).

Definition set_last_log (t : PrimFloat.float) (s : State) : State :=
  mkState (buffer s) t (last_flush s) (last_git_push s) (last_purge_day s)
          (disk s) (view s) (alerts s) (csv_last_week s) (trace s).

Definition set_last_flush (t : PrimFloat.float) (s : State) : State :=
  mkState (buffer s) (last_log s) t (last_git_push s) (last_purge_day s)
          (disk s) (view s) (alerts s) (csv_last_week s) (trace s).

Definition set_last_git_push (i : option string) (s : State) : State :=
  mkState (buffer s) (last_log s) (last_flush s) i (last_purge_day s)
          (disk s) (view s) (alerts s) (csv_last_week s) (trace s).

Definition set_last_purge_day (d : option (Z * Z * Z)) (s : State) : State :=
  mkState (buffer s) (last_log s) (last_flush s) (last_git_push s) d
          (disk s) (view s) (alerts s) (csv_last_week s) (trace s).

Definition set_disk (t : Store.table) (s : State) : State :=
  mkState (buffer s) (last_log s) (last_flush s) (last_git_push s)
          (last_purge_day s) t (view s) (alerts s) (csv_last_week s) (trace s).

Definition set_view (t : Store.table) (s : State) : State :=
  mkState (buffer s) (last_log s) (last_flush s) (last_git_push s)
          (last_purge_day s) (disk s) t (alerts s) (csv_last_week s) (trace s).

Definition set_alerts (a : list alert_line) (s : State) : State :=
  mkState (buffer s) (last_log s) (last_flush s) (last_git_push s)
          (last_purge_day s) (disk s) (view s) a (csv_last_week s) (trace s).

Definition set_csv_last_week (f : option (list csv_row)) (s : State) : State :=
  mkState (buffer s) (last_log s) (last_flush s) (last_git_push s)
          (last_purge_day s) (disk s) (view s) (alerts s) f (trace s).

Definition set_trace (t : list event) (s : State) : State :=
  mkState (buffer s) (last_log s) (last_flush s) (last_git_push s)
          (last_purge_day s) (disk s) (view s) (alerts s) (csv_last_week s) t.

(** ** A state and exception monad for the script's statements *)

Definition M (A : Type) : Type := State -> result A * State.

Definition ret {A : Type} (a : A) : M A := fun s => (Ok a, s).

Definition bind {A B : Type} (m : M A) (k : A -> M B) : M B :=
  fun s =>
    match m s with
    | (Ok a, s') => k a s'
    | (Raise e, s') => (Raise e, s')
    end.

Definition raise {A : Type} (e : exn) : M A := fun s => (Raise e, s).

Definition get : M State := fun s => (Ok s, s).

Definition modify (f : State -> State) : M unit := fun s => (Ok tt, f s).

(** [try: m except <class>: h], where [catches] decides the class. *)
Definition try_except {A : Type} (m : M A) (catches : exn -> bool)
    (h : exn -> M A) : M A :=
  fun s =>
    match m s with
    | (Ok a, s') => (Ok a, s')
    | (Raise e, s') => if catches e then h e s' else (Raise e, s')
    end.

Declare Scope prog_scope.
Delimit Scope prog_scope with prog.
Notation "x <- m ;; k" := (bind m (fun x => k))
  (at level 61, m at next level, right associativity) : prog_scope.
Notation "m ;; k" := (bind m (fun _ => k))
  (at level 61, right associativity) : prog_scope.
Local Open Scope prog_scope.

(** An external call whose only result is success or an exception. *)
Definition call (outcome : option exn) : M unit :=
  match outcome with
  | None => ret tt
  | Some e => raise e
  end.

(** An external call that returns a value or raises. *)
Definition lift {A : Type} (r : result A) : M A :=
  match r with
  | Ok a => ret a
  | Raise e => raise e
  end.

Definition emit (e : event) : M unit :=
  modify (fun s => set_trace (trace s ++ [e])%list s).

(** ** Helpers (lines 72-168) *)

(** [str(n)] for a length. *)
Definition decimal (n : nat) : string :=
  DecimalString.NilZero.string_of_uint (Nat.to_uint n).

(** Inputs of one [log_alert] call: the clock read at line 82 and the outcome
    of appending to the file. *)
Record AlertIn : Set := mkAlertIn {
  al_now : datetime;
  al_io : option exn
}.

(** [log_alert] (lines 80-85).  The copy printed on standard output is not
    kept. *)
Definition log_alert (i : AlertIn) (message : string) : M unit :=
  let stamp := isoformat_seconds (al_now i) in
  call (al_io i) ;;
  modify (fun s => set_alerts (alerts s ++ [(stamp, message)])%list s).

(** [is_online] (lines 72-77): [probe] is the outcome of
    [socket.create_connection]. *)
Definition is_online (probe : option exn) : M bool :=
  emit Probe ;;
  try_except (call probe ;; ret true) is_OSError (fun _ => ret false).

(** Inputs of [export_last_week], in program order. *)
Record ExportIn : Set := mkExportIn {
  ex_mkdir : option exn;              (* line 89 *)
  ex_now : datetime;                  (* line 91 *)
  ex_connect : option exn;            (* line 94 *)
  ex_query : option exn;              (* lines 95-109 *)
  ex_close : option exn;              (* line 110 *)
  ex_open : option exn;               (* line 116 *)
  ex_write : option (nat * exn);      (* lines 117-125: rows written before a fault *)
  ex_alert : AlertIn;                 (* line 113 or 127 *)
  ex_alert_except : AlertIn           (* line 130 *)
}.

(** Lines 116-125: [open(..., "w")] empties the file, then the header and
    the rows are written. *)
Definition write_csv (o_open : option exn) (o_write : option (nat * exn))
    (rows : list Reading) : M unit :=
  let content := csv_header :: map csv_of_reading rows in
  call o_open ;;
  modify (set_csv_last_week (Some [])) ;;
  match o_write with
  | None => modify (set_csv_last_week (Some content))
  | Some (k, e) =>
      modify (set_csv_last_week (Some (firstn k content))) ;; raise e
  end.

(** [export_last_week] (lines 87-130).  The connection opened at line 94 is a
    second one: it reads the committed contents of the file. *)
Definition export_last_week (i : ExportIn) : M unit :=
  call (ex_mkdir i) ;;
  let cutoff := isoformat_seconds (minus_days (ex_now i) 7) in
  try_except
    (call (ex_connect i) ;;
     emit (Connect ExportConn) ;;
     call (ex_query i) ;;
     s <- get ;;
     let rows := Store.select_since cutoff (disk s) in
     call (ex_close i) ;;
     emit (Close ExportConn) ;;
     match rows with
     | [] => log_alert (ex_alert i) "[CSV WEEKLY] No data found"
     | _ :: _ =>
         write_csv (ex_open i) (ex_write i) rows ;;
         log_alert (ex_alert i)
           ("[CSV WEEKLY] Updated (" ++ decimal (List.length rows) ++ " rows)")
     end)
    is_Exception
    (fun e => log_alert (ex_alert_except i) ("[CSV WEEKLY ERROR] " ++ str_exn e)).

(** Inputs of [push_git], in program order. *)
Record PushIn : Set := mkPushIn {
  pg_now : datetime;                  (* line 133 *)
  pg_export : ExportIn;               (* line 135 *)
  pg_probe : option exn;              (* line 137 *)
  pg_add : option exn;                (* line 142 *)
  pg_commit : option exn;             (* line 146 *)
  pg_push : option exn;               (* line 152 *)
  pg_alert : AlertIn;                 (* line 138 or 156 *)
  pg_alert_except : AlertIn           (* line 158 *)
}.

(** [push_git] (lines 132-158) *)
Definition push_git (i : PushIn) : M unit :=
  let now := pg_now i in
  export_last_week (pg_export i) ;;
  online <- is_online (pg_probe i) ;;
  if negb online then
    log_alert (pg_alert i) "[GIT] Offline, push skipped"
  else
    try_except
      (emit (Git GitAdd) ;;
       call (pg_add i) ;;
       emit (Git (GitCommit ("Weather DB update " ++ strftime_commit now))) ;;
       call (pg_commit i) ;;
       emit (Git GitPush) ;;
       call (pg_push i) ;;
       log_alert (pg_alert i) "[GIT] Push successful")
      is_CalledProcessError
      (fun e => log_alert (pg_alert_except i) ("[GIT ERROR] " ++ str_exn e)).

(** [conn.executemany(INSERT OR IGNORE ..., rows)] on the main connection.
    A fault after [k] parameter tuples leaves those [k] statements in the
    open transaction. *)
Definition executemany (outcome : option (nat * exn)) (rows : list Reading)
    : M unit :=
  match outcome with
  | None =>
      modify (fun s => set_view (Store.executemany_insert (view s) rows) s)
  | Some (k, e) =>
      modify (fun s =>
                set_view (Store.executemany_insert (view s) (firstn k rows)) s) ;;
      raise e
  end.

(** [conn.commit()] on the main connection. *)
Definition commit (outcome : option exn) : M unit :=
  call outcome ;;
  modify (fun s => set_disk (view s) s) ;;
  emit (Commit MainConn).

(** Inputs of [purge_old_data], in program order. *)
Record PurgeIn : Set := mkPurgeIn {
  pu_now : datetime;                  (* line 162 *)
  pu_delete : option exn;             (* line 163 *)
  pu_commit : option exn;             (* line 167 *)
  pu_alert : AlertIn                  (* line 168 *)
}.

(** [purge_old_data] (lines 161-168) *)
Definition purge_old_data (i : PurgeIn) : M unit :=
  let cutoff := isoformat (minus_days (pu_now i) RETENTION_DAYS) in
  call (pu_delete i) ;;
  modify (fun s => set_view (Store.delete_before cutoff (view s)) s) ;;
  commit (pu_commit i) ;;
  log_alert (pu_alert i) "[DB] Old data purged".

(** ** The main loop (lines 173-244) *)

(** [float(n)] for the two intervals of the configuration, which are
    [int]s. *)
Definition float_of_int (n : Z) : PrimFloat.float :=
  PrimFloat.of_uint63 (Uint63.of_Z n).

(** [mono - last >= seconds]: [mono] and [last] are two readings of
    [time.monotonic()], binary64 floats; their difference is the rounded
    binary64 difference, and it is compared with the [int] [seconds], for
    which Python's mixed comparison is the comparison with [float(seconds)]. *)
Definition elapsed_at_least (mono last : PrimFloat.float) (seconds : Z) : bool :=
  PrimFloat.leb (float_of_int seconds) (PrimFloat.sub mono last).

(** [round(_, 2)] of a quotient, in hundredths: nearest, ties to even. *)
Definition round_half_even (n d : Z) : Z :=
  let q := n / d in
  let r := n mod d in
  if 2 * r <? d then q
  else if d <? 2 * r then q + 1
  else if Z.even q then q else q + 1.

(** [round(temp_c * 1.8 + 32, 2)] (line 192), on hundredths. *)
Definition fahrenheit (c : Z) : Z := round_half_even (18 * c + 32000) 10.

(** [last_purge_day != now.date()] *)
Definition purge_due (last : option (Z * Z * Z)) (now : datetime) : bool :=
  match last with
  | None => true
  | Some d => negb (date_eqb d (date now))
  end.

(** [now.minute % 30 == 0 and interval_id != last_git_push] *)
Definition sync_due (last : option string) (now : datetime) : bool :=
  (minute now mod 30 =? 0) &&
  match last with
  | None => true
  | Some i => negb (String.eqb (strftime_interval_id now) i)
  end.

(** [len(buffer) >= DB_BATCH_SIZE or time.monotonic() - last_flush >=
    DB_FLUSH_INTERVAL] *)
Definition flush_due (buf : list Reading) (mono last : PrimFloat.float) : bool :=
  (DB_BATCH_SIZE <=? List.length buf)%nat ||
  elapsed_at_least mono last DB_FLUSH_INTERVAL.

(** [time.monotonic() - last_log >= LOG_INTERVAL] *)
Definition sample_due (mono last : PrimFloat.float) : bool :=
  elapsed_at_least mono last LOG_INTERVAL.

(** Inputs of one iteration of the [while True] body, in program order.  The
    three sensor values arrive already rounded, in hundredths. *)
Record TickIn : Set := mkTickIn {
  ti_now : datetime;                  (* line 183 *)
  ti_mono_log : PrimFloat.float;      (* line 188 *)
  ti_mono_log_set : PrimFloat.float;  (* line 189 *)
  ti_temperature : result Z;          (* line 191 *)
  ti_pressure : result Z;             (* line 193 *)
  ti_humidity : result Z;             (* line 194 *)
  ti_mono_flush : PrimFloat.float;    (* line 209 *)
  ti_insert : option (nat * exn);     (* line 211 *)
  ti_commit : option exn;             (* line 215 *)
  ti_mono_flush_set : PrimFloat.float; (* line 217 *)
  ti_purge : PurgeIn;                 (* line 224 *)
  ti_push : PushIn;                   (* line 232 *)
  ti_sleep : option exn               (* line 234 *)
}.

(** Lines 188-202 *)
Definition sample_block (i : TickIn) : M unit :=
  s <- get ;;
  if sample_due (ti_mono_log i) (last_log s) then
    emit (Fire Sample) ;;
    modify (set_last_log (ti_mono_log_set i)) ;;
    temp_c <- lift (ti_temperature i) ;;
    let temp_f := fahrenheit temp_c in
    pressure <- lift (ti_pressure i) ;;
    humidity <- lift (ti_humidity i) ;;
    modify (fun s =>
      set_buffer
        (buffer s ++
         [mkReading (isoformat_seconds (ti_now i)) temp_c temp_f pressure
                    humidity])%list s)
  else ret tt.

(** Lines 207-217 *)
Definition flush_block (i : TickIn) : M unit :=
  s <- get ;;
  if flush_due (buffer s) (ti_mono_flush i) (last_flush s) then
    emit (Fire Flush) ;;
    executemany (ti_insert i) (buffer s) ;;
    commit (ti_commit i) ;;
    modify (set_buffer []) ;;
    modify (set_last_flush (ti_mono_flush_set i))
  else ret tt.

(** Lines 222-224 *)
Definition purge_block (i : TickIn) : M unit :=
  s <- get ;;
  if purge_due (last_purge_day s) (ti_now i) then
    emit (Fire Purge) ;;
    modify (set_last_purge_day (Some (date (ti_now i)))) ;;
    purge_old_data (ti_purge i)
  else ret tt.

(** Lines 229-232 *)
Definition sync_block (i : TickIn) : M unit :=
  let interval_id := strftime_interval_id (ti_now i) in
  s <- get ;;
  if sync_due (last_git_push s) (ti_now i) then
    emit (Fire Sync) ;;
    modify (set_last_git_push (Some interval_id)) ;;
    push_git (ti_push i)
  else ret tt.

(** One iteration of the loop body (lines 183-234). *)
Definition tick (i : TickIn) : M unit :=
  sample_block i ;;
  flush_block i ;;
  purge_block i ;;
  sync_block i ;;
  call (ti_sleep i).

(** Inputs of the [KeyboardInterrupt] handler. *)
Record ShutdownIn : Set := mkShutdownIn {
  sd_insert : option (nat * exn);     (* line 238 *)
  sd_commit : option exn;             (* line 242 *)
  sd_close : option exn;              (* line 243 *)
  sd_alert : AlertIn                  (* line 244 *)
}.

(** The handler (lines 236-244).  Closing the connection drops whatever
    transaction is still open. *)
Definition shutdown (i : ShutdownIn) : M unit :=
  s <- get ;;
  match buffer s with
  | [] => ret tt
  | _ :: _ => executemany (sd_insert i) (buffer s) ;; commit (sd_commit i)
  end ;;
  call (sd_close i) ;;
  modify (fun s => set_view (disk s) s) ;;
  emit (Close MainConn) ;;
  log_alert (sd_alert i) "Logger stopped cleanly".

(** Inputs of the module-level code before the loop. *)
Record StartupIn : Set := mkStartupIn {
  su_sensor : option exn;             (* lines 35-37 *)
  su_mkdir : option exn;              (* line 42 *)
  su_connect : option exn;            (* line 47 *)
  su_schema : option exn;             (* lines 48-67 *)
  su_alert : AlertIn;                 (* line 173 *)
  su_mono_log : PrimFloat.float;      (* line 176 *)
  su_mono_flush : PrimFloat.float     (* line 177 *)
}.

(** Lines 35-67 and 173-179.  The schema statements are create-if-absent
    and leave the rows as they are. *)
Definition startup (i : StartupIn) : M unit :=
  call (su_sensor i) ;;
  call (su_mkdir i) ;;
  call (su_connect i) ;;
  emit (Connect MainConn) ;;
  call (su_schema i) ;;
  emit (Commit MainConn) ;;
  log_alert (su_alert i) "SQLite weather logger started" ;;
  modify (set_buffer []) ;;
  modify (set_last_log (su_mono_log i)) ;;
  modify (set_last_flush (su_mono_flush i)) ;;
  modify (set_last_git_push None) ;;
  modify (set_last_purge_day None).

(** The machine before the script starts: the files as the previous run left
    them, no variable assigned yet. *)
Definition boot (db : Store.table) (log : list alert_line)
    (csv : option (list csv_row)) : State :=
  mkState [] (float_of_int 0) (float_of_int 0) None None db db log csv [].

(** How far the process got after a finite number of iterations. *)
Inductive outcome : Set :=
| Running (s : State)                 (* still inside [while True] *)
| Exited (s : State)                  (* the handler ran to its end *)
| Crashed (e : exn) (s : State).      (* an exception left the script *)

(** [try: while True: ... except KeyboardInterrupt: ...] over the iterations
    whose inputs are given. *)
Fixpoint loop (ticks : list TickIn) (sd : ShutdownIn) (s : State) : outcome :=
  match ticks with
  | [] => Running s
  | i :: rest =>
      match tick i s with
      | (Ok _, s') => loop rest sd s'
      | (Raise KeyboardInterrupt, s') =>
          match shutdown sd s' with
          | (Ok _, s'') => Exited s''
          | (Raise e, s'') => Crashed e s''
          end
      | (Raise e, s') => Crashed e s'
      end
  end.

(** The whole script. *)
Definition main (su : StartupIn) (ticks : list TickIn) (sd : ShutdownIn)
    (s0 : State) : outcome :=
  match startup su s0 with
  | (Ok _, s) => loop ticks sd s
  | (Raise e, s) => Crashed e s
  end.

Definition final_state (o : outcome) : State :=
  match o with
  | Running s | Exited s | Crashed _ s => s
  end.

(** Equality of events. *)
Definition event_eqb (a b : event) : bool :=
  match a, b with
  | Fire Sample, Fire Sample | Fire Flush, Fire Flush
  | Fire Purge, Fire Purge | Fire Sync, Fire Sync => true
  | Connect MainConn, Connect MainConn
  | Connect ExportConn, Connect ExportConn => true
  | Commit MainConn, Commit MainConn
  | Commit ExportConn, Commit ExportConn => true
  | Close MainConn, Close MainConn
  | Close ExportConn, Close ExportConn => true
  | Probe, Probe => true
  | Git GitAdd, Git GitAdd | Git GitPush, Git GitPush => true
  | Git (GitCommit m), Git (GitCommit m') => String.eqb m m'
  | _, _ => false
  end.

(** Occurrences of an event in a trace. *)
Definition count_event (e : event) (t : list event) : nat :=
  List.length (filter (event_eqb e) t).

Definition is_git (e : event) : bool :=
  match e with Git _ => true | _ => false end.

Definition is_connect (e : event) : bool :=
  match e with Connect _ => true | _ => false end.

(** ** Vocabulary of the properties *)

(** *** Frames *)

(** [stable R m]: whatever [m] does, returning or raising, the state it
    leaves is related by [R] to the state it started from. *)
Definition stable {A : Type} (R : State -> State -> Prop) (m : M A) : Prop :=
  forall s, R s (snd (m s)).

(** The events a run adds all satisfy [p]. *)
Definition adds (p : event -> bool) (s s' : State) : Prop :=
  exists evs, trace s' = (trace s ++ evs)%list /\ forallb p evs = true.

(** [frame f p]: the part [f] of the state is left as it was and every
    event added satisfies [p]. *)
Definition frame {X : Type} (f : State -> X) (p : event -> bool)
    (s s' : State) : Prop :=
  f s' = f s /\ adds p s s'.

(** The five program variables of the loop. *)
Definition vars (s : State) :=
  (buffer s, last_log s, last_flush s, last_git_push s, last_purge_day s).

Definition is_probe (e : event) : bool :=
  match e with Probe => true | _ => false end.

Definition is_export_event (e : event) : bool :=
  match e with
  | Connect ExportConn | Close ExportConn => true
  | _ => false
  end.

Definition is_push_event (e : event) : bool :=
  match e with
  | Connect ExportConn | Close ExportConn | Probe | Git _ => true
  | _ => false
  end.

Definition is_main_commit (e : event) : bool :=
  match e with Commit MainConn => true | _ => false end.

Definition no_event (e : event) : bool := false.

Definition is_not (e : event) (x : event) : bool := negb (event_eqb e x).

(** *** Counters and schedules *)

(** How many times the body of activity [a] was entered. *)
Definition fired (a : action) (s : State) : nat :=
  count_event (Fire a) (trace s).

(** What one iteration does to the push schedule: nothing, or one push whose
    identifier becomes [last_git_push]. *)
Definition sync_progress (i : TickIn) (s s' : State) : Prop :=
  (fired Sync s' = fired Sync s /\ last_git_push s' = last_git_push s)
  \/
  (fired Sync s' = S (fired Sync s) /\
   last_git_push s' = Some (strftime_interval_id (ti_now i)) /\
   sync_due (last_git_push s) (ti_now i) = true).

(** What one iteration does to the purge schedule. *)
Definition purge_progress (i : TickIn) (s s' : State) : Prop :=
  (fired Purge s' = fired Purge s /\ last_purge_day s' = last_purge_day s)
  \/
  (fired Purge s' = S (fired Purge s) /\
   last_purge_day s' = Some (date (ti_now i)) /\
   purge_due (last_purge_day s) (ti_now i) = true).

(** Entries into activity [a] made by those iterations of a run that satisfy
    [inside]; the run stops at the first iteration that raises. *)
Fixpoint fired_inside (a : action) (inside : TickIn -> bool)
    (ticks : list TickIn) (s : State) : nat :=
  match ticks with
  | [] => 0%nat
  | i :: rest =>
      ((if inside i then fired a (snd (tick i s)) - fired a s else 0) +
       match tick i s with
       | (Ok _, s') => fired_inside a inside rest s'
       | (Raise _, _) => 0
       end)%nat
  end.

(** Iterations carrying the push identifier [x]. *)
Definition in_minute (x : string) (i : TickIn) : bool :=
  String.eqb (strftime_interval_id (ti_now i)) x.

(** Iterations on the calendar date [d]. *)
Definition on_date (d : Z * Z * Z) (i : TickIn) : bool :=
  date_eqb (date (ti_now i)) d.

(** The lines a run appends to [ALERTS.log] all satisfy [p]. *)
Definition logs (p : alert_line -> bool) (s s' : State) : Prop :=
  exists l, alerts s' = (alerts s ++ l)%list /\ forallb p l = true.

Definition skip_message : string := "[GIT] Offline, push skipped".

Definition notes_skip (l : alert_line) : bool := String.eqb (snd l) skip_message.

Definition count_skips (l : list alert_line) : nat :=
  List.length (filter notes_skip l).

Definition opened (c : conn_id) (s : State) : nat :=
  count_event (Connect c) (trace s).

Definition closed (c : conn_id) (s : State) : nat :=
  count_event (Close c) (trace s).

Definition not_main_conn (e : event) : bool :=
  is_not (Connect MainConn) e && is_not (Close MainConn) e.

(** *** Instants *)

(** Field ranges of a [datetime]. *)
Definition datetime_ok (d : datetime) : Prop :=
  1 <= year d <= 9999 /\ 1 <= month d <= 12 /\ 1 <= day d <= 31 /\
  0 <= hour d <= 23 /\ 0 <= minute d <= 59 /\ 0 <= second d <= 59 /\
  0 <= microsecond d <= 999999.

(** Lexicographic combination of two comparisons. *)
Definition lex (c1 c2 : comparison) : comparison :=
  match c1 with Eq => c2 | _ => c1 end.

(** Which of two instants comes first. *)
Definition compare_datetime (a b : datetime) : comparison :=
  lex (year a ?= year b)
 (lex (month a ?= month b)
 (lex (day a ?= day b)
 (lex (hour a ?= hour b)
 (lex (minute a ?= minute b)
 (lex (second a ?= second b)
      (microsecond a ?= microsecond b)))))).

(** The instant a second-precision time stamp stands for. *)
Definition truncate_seconds (d : datetime) : datetime :=
  mkDatetime (year d) (month d) (day d) (hour d) (minute d) (second d) 0.

(** *** A concrete machine *)

(** Sunday 2 November 2025, 01:00:03.25 local time. *)
Definition demo_now : datetime := mkDatetime 2025 11 2 1 0 3 250000.

Definition demo_alert (d : datetime) : AlertIn := mkAlertIn d None.

Definition demo_export (d : datetime) : ExportIn :=
  mkExportIn None d None None None None None (demo_alert d) (demo_alert d).

Definition demo_push (d : datetime) (probe : option exn) : PushIn :=
  mkPushIn d (demo_export d) probe None None None (demo_alert d) (demo_alert d).

Definition demo_purge (d : datetime) : PurgeIn :=
  mkPurgeIn d None None (demo_alert d).

(** An iteration at wall-clock time [d] in which every reading of the
    monotonic clock is [float(sec)], with the given temperature read, probe
    outcome and sleep outcome. *)
Definition demo_tick (d : datetime) (sec : Z) (temperature : result Z)
    (probe sleep : option exn) : TickIn :=
  let mono := float_of_int sec in
  mkTickIn d mono mono temperature (Ok 101325) (Ok 4500) mono None None mono
           (demo_purge d) (demo_push d probe) sleep.

Definition demo_startup : StartupIn :=
  mkStartupIn None None None None (demo_alert demo_now)
              (float_of_int 0) (float_of_int 0).

Definition demo_shutdown : ShutdownIn :=
  mkShutdownIn None None None (demo_alert demo_now).

Definition demo_old : Reading := mkReading "2020-01-01T00:00:00" 1850 6530 100900 5100.

Definition demo_recent : Reading := mkReading "2025-11-01T00:00:00" 2150 7070 101325 4500.

(** Half an hour after [demo_now]. *)
Definition demo_half : datetime := mkDatetime 2025 11 2 1 30 3 250000.

(** Local time on the night daylight saving time ends: 01:00, 01:30, and,
    the clock having been set back an hour at 02:00, 01:00 again. *)
Definition demo_dst_night : list TickIn :=
  [demo_tick demo_now 60 (Ok 2150) None None;
   demo_tick demo_half 1860 (Ok 2140) None None;
   demo_tick demo_now 3660 (Ok 2130) None None].

(** The state right after startup on a database holding the two rows. *)
Definition demo_state : State :=
  snd (startup demo_startup (boot [demo_old; demo_recent] [] None)).

(** *** Outcomes of the three [git] invocations *)

(** The exception of the first [git] command that fails, if any. *)
Definition git_fault (i : PushIn) : option exn :=
  match pg_add i with
  | Some e => Some e
  | None =>
      match pg_commit i with
      | Some e => Some e
      | None => pg_push i
      end
  end.

(** The [git] commands that get invoked: each one only if those before it
    succeeded. *)
Definition git_invoked (i : PushIn) : list event :=
  Git GitAdd ::
  match pg_add i with
  | Some _ => []
  | None =>
      Git (GitCommit ("Weather DB update " ++ strftime_commit (pg_now i))) ::
      match pg_commit i with
      | Some _ => []
      | None => [Git GitPush]
      end
  end.

(** *** Outcomes of the database calls of the export *)

(** The exception of the first of connect, query and close that fails. *)
Definition export_db_fault (i : ExportIn) : option exn :=
  match ex_connect i with
  | Some e => Some e
  | None =>
      match ex_query i with
      | Some e => Some e
      | None => ex_close i
      end
  end.

(** The rows the export selects in state [s]. *)
Definition export_rows (i : ExportIn) (s : State) : list Reading :=
  Store.select_since (isoformat_seconds (minus_days (ex_now i) 7)) (disk s).


(** *** Invariants of a run *)

(** Both views of the database respect the primary key. *)
Definition store_ok (s : State) : Prop :=
  Store.wf (view s) /\ Store.wf (disk s).

(** [store_ok] is kept. *)
Definition keeps_store_ok (s s' : State) : Prop :=
  store_ok s -> store_ok s'.

(** The filter that accepts every line. *)
Definition any_line (l : alert_line) : bool := true.

(** *** Startup and the end of a run *)


Definition stop_message : string := "Logger stopped cleanly".

Definition notes_stop (l : alert_line) : bool := String.eqb (snd l) stop_message.

(** Lines of the log that record a clean stop. *)
Definition count_stops (l : list alert_line) : nat :=
  List.length (filter notes_stop l).


(** *** Rows that stay *)

(** Every committed row is also in the connection's view. *)
Definition committed_in_view (s : State) : Prop :=
  forall r, In r (disk s) -> In r (view s).

(** No row is lost from either view of the database. *)
Definition keeps_rows (s s' : State) : Prop :=
  committed_in_view s ->
  committed_in_view s' /\
  (forall r, In r (disk s) -> In r (disk s')) /\
  (forall r, In r (view s) -> In r (view s')).

(** *** Inputs with faults *)

(** A push at [demo_now] with the host reachable and the given outcomes of
    add, commit and push. *)
Definition demo_push_git (add commit push : option exn) : PushIn :=
  mkPushIn demo_now (demo_export demo_now) None add commit push
           (demo_alert demo_now) (demo_alert demo_now).

(** An export at [demo_now] with the given outcomes of connect, open and
    write. *)
Definition demo_export_with (connect open : option exn)
    (write : option (nat * exn)) : ExportIn :=
  mkExportIn None demo_now connect None None open write
             (demo_alert demo_now) (demo_alert demo_now).

(** Two readings waiting in the batch, five minutes after startup. *)
Definition demo_waiting : State :=
  set_buffer [mkReading "2025-11-02T01:01:03" 2150 7070 101325 4500;
              mkReading "2025-11-02T01:02:03" 2140 7052 101320 4510]
             demo_state.

(** An iteration whose flush is cut off by an interrupt after one row. *)
Definition demo_cut_tick : TickIn :=
  mkTickIn demo_now (float_of_int 300) (float_of_int 300)
           (Ok 2150) (Ok 101325) (Ok 4500) (float_of_int 300)
           (Some (1%nat, KeyboardInterrupt)) None (float_of_int 300)
           (demo_purge demo_now) (demo_push demo_now None) None.

(** The state after a first, complete iteration at [demo_now]. *)
Definition demo_after_first : State :=
  snd (tick (demo_tick demo_now 60 (Ok 2150) None None) demo_state).

(** *** Which readings of a batch are stored *)

(** [r] is the first reading of [rows] under its timestamp. *)
Definition first_with_key (rows : list Reading) (r : Reading) : Prop :=
  find (fun x => String.eqb (timestamp x) (timestamp r)) rows = Some r.

(** *** Nights on which the wall clock steps back *)

(** The readings of the iterations of [demo_dst_night]: the third carries
    the time stamp of the first. *)
Definition demo_first : Reading :=
  mkReading "2025-11-02T01:00:03" 2150 7070 101325 4500.

Definition demo_second : Reading :=
  mkReading "2025-11-02T01:30:03" 2140 7052 101325 4500.

Definition demo_again : Reading :=
  mkReading "2025-11-02T01:00:03" 2130 7034 101325 4500.

(** 01:59:03, a minute before the clock is set back to 01:00. *)
Definition demo_late : datetime := mkDatetime 2025 11 2 1 59 3 250000.

Definition demo_third : Reading :=
  mkReading "2025-11-02T01:59:03" 2135 7043 101325 4500.

(** The same night, with a flush at 01:59:03 and an interrupt during the
    sleep of the iteration that samples at the second 01:00:03. *)
Definition demo_dst_interrupted : list TickIn :=
  [demo_tick demo_now 60 (Ok 2150) None None;
   demo_tick demo_half 1860 (Ok 2140) None None;
   demo_tick demo_late 3600 (Ok 2135) None None;
   demo_tick demo_now 3660 (Ok 2130) None (Some KeyboardInterrupt)].

(** Around midnight: the date changes, then a time synchronisation sets
    the clock back by two seconds. *)
Definition demo_midnight : list TickIn :=
  [demo_tick (mkDatetime 2025 11 2 23 59 58 0) 60 (Ok 2150) None None;
   demo_tick (mkDatetime 2025 11 3 0 0 0 0) 62 (Ok 2150) None None;
   demo_tick (mkDatetime 2025 11 2 23 59 59 0) 63 (Ok 2150) None None].

(** Four readings of the minutes before [demo_now]. *)
Definition demo_four : list Reading :=
  [mkReading "2025-11-02T00:56:03" 2160 7088 101330 4490;
   mkReading "2025-11-02T00:57:03" 2160 7088 101330 4490;
   mkReading "2025-11-02T00:58:03" 2155 7079 101328 4495;
   mkReading "2025-11-02T00:59:03" 2150 7070 101325 4500].

(** * Properties *)

(** ** The clock *)

Example isoformat_seconds_ex :
  isoformat_seconds (mkDatetime 2025 3 1 9 5 7 123456) = "2025-03-01T09:05:07".
Proof. reflexivity. Qed.

Example isoformat_ex :
  isoformat (mkDatetime 2025 3 1 9 5 7 123456) = "2025-03-01T09:05:07.123456"
  /\ isoformat (mkDatetime 2025 3 1 9 5 7 0) = "2025-03-01T09:05:07".
Proof. split; reflexivity. Qed.

Example minus_days_ex :
  minus_days (mkDatetime 2025 3 1 9 5 7 0) 365 = mkDatetime 2024 3 1 9 5 7 0
  /\ minus_days (mkDatetime 2025 1 3 0 0 0 0) 7 = mkDatetime 2024 12 27 0 0 0 0.
Proof. split; reflexivity. Qed.

(** ** Time stamps as text *)

Lemma digit_compare (x y : Z) :
  Ascii.compare (digit x) (digit y) = (x mod 10 ?= y mod 10).
Proof.
  unfold digit.
  pose proof (Z.mod_pos_bound x 10 eq_refl) as Hx.
  pose proof (Z.mod_pos_bound y 10 eq_refl) as Hy.
  generalize dependent (x mod 10). generalize dependent (y mod 10).
  intros v Hv u Hu.
  assert (Eu : u = 0 \/ u = 1 \/ u = 2 \/ u = 3 \/ u = 4 \/ u = 5 \/ u = 6 \/
               u = 7 \/ u = 8 \/ u = 9) by lia.
  assert (Ev : v = 0 \/ v = 1 \/ v = 2 \/ v = 3 \/ v = 4 \/ v = 5 \/ v = 6 \/
               v = 7 \/ v = 8 \/ v = 9) by lia.
  clear Hu Hv.
  repeat (destruct Eu as [-> | Eu]); try subst u;
    repeat (destruct Ev as [-> | Ev]); try subst v; reflexivity.
Qed.

Lemma compare_digit_cons (x y : Z) (s t : string) :
  String.compare (String (digit x) s) (String (digit y) t) =
  lex (x mod 10 ?= y mod 10) (String.compare s t).
Proof.
  change (String.compare (String (digit x) s) (String (digit y) t))
    with (match Ascii.compare (digit x) (digit y) with
          | Eq => String.compare s t
          | ne => ne
          end).
  rewrite digit_compare. unfold lex.
  destruct (x mod 10 ?= y mod 10); reflexivity.
Qed.

Lemma lex_assoc a b c : lex (lex a b) c = lex a (lex b c).
Proof. destruct a; reflexivity. Qed.

(** Comparing two numbers digit by digit, last digit last. *)
Lemma digits_step (n m : Z) (c : comparison) :
  lex (n / 10 ?= m / 10) (lex (n mod 10 ?= m mod 10) c) = lex (n ?= m) c.
Proof.
  rewrite <- lex_assoc. f_equal.
  pose proof (Z.div_mod n 10 ltac:(lia)) as Dn.
  pose proof (Z.div_mod m 10 ltac:(lia)) as Dm.
  pose proof (Z.mod_pos_bound n 10 eq_refl) as Bn.
  pose proof (Z.mod_pos_bound m 10 eq_refl) as Bm.
  generalize dependent (n / 10). generalize dependent (m / 10).
  generalize dependent (n mod 10). generalize dependent (m mod 10).
  intros m0 Bm n0 Bn m1 Dm n1 Dn. subst n m. unfold lex.
  destruct (Z.compare_spec n1 m1) as [E|E|E];
    destruct (Z.compare_spec n0 m0) as [F|F|F];
    symmetry;
    first [apply Z.compare_eq_iff; lia | apply Z.compare_lt_iff; lia
          | apply Z.compare_gt_iff; lia].
Qed.

Lemma two_digits (n m : Z) (c : comparison) :
  0 <= n < 100 -> 0 <= m < 100 ->
  lex ((n / 10) mod 10 ?= (m / 10) mod 10) (lex (n mod 10 ?= m mod 10) c) =
  lex (n ?= m) c.
Proof.
  intros Hn Hm.
  rewrite (Z.mod_small (n / 10)), (Z.mod_small (m / 10));
    [apply digits_step | |];
    (split; [apply Z.div_pos; lia | apply Z.div_lt_upper_bound; lia]).
Qed.

Lemma four_digits (n m : Z) (c : comparison) :
  0 <= n < 10000 -> 0 <= m < 10000 ->
  lex ((n / 1000) mod 10 ?= (m / 1000) mod 10)
   (lex ((n / 100) mod 10 ?= (m / 100) mod 10)
     (lex ((n / 10) mod 10 ?= (m / 10) mod 10)
       (lex (n mod 10 ?= m mod 10) c))) =
  lex (n ?= m) c.
Proof.
  intros Hn Hm.
  rewrite (Z.mod_small (n / 1000)), (Z.mod_small (m / 1000));
    try (split; [apply Z.div_pos; lia | apply Z.div_lt_upper_bound; lia]).
  replace (n / 1000) with (n / 100 / 10) by (rewrite Z.div_div by lia; reflexivity).
  replace (m / 1000) with (m / 100 / 10) by (rewrite Z.div_div by lia; reflexivity).
  rewrite digits_step.
  replace (n / 100) with (n / 10 / 10) by (rewrite Z.div_div by lia; reflexivity).
  replace (m / 100) with (m / 10 / 10) by (rewrite Z.div_div by lia; reflexivity).
  rewrite digits_step. apply digits_step.
Qed.

Lemma compare_same_cons (c : ascii) (s t : string) :
  String.compare (String c s) (String c t) = String.compare s t.
Proof.
  change (String.compare (String c s) (String c t))
    with (match Ascii.compare c c with
          | Eq => String.compare s t
          | ne => ne
          end).
  unfold Ascii.compare. rewrite N.compare_refl. reflexivity.
Qed.

(** The text order of time stamps is the order of the instants: a
    second-precision stamp against a full [isoformat] one. *)
Lemma isoformat_compare (a b : datetime) :
  datetime_ok a -> datetime_ok b ->
  String.compare (isoformat_seconds a) (isoformat b) =
  compare_datetime (truncate_seconds a) b.
Proof.
  intros (Ya & Ma & Da & Ha & Mia & Sa & Ua) (Yb & Mb & Db & Hb & Mib & Sb & Ub).
  unfold compare_datetime, truncate_seconds. simpl year. simpl month.
  simpl day. simpl hour. simpl minute. simpl second. simpl microsecond.
  cbv beta iota zeta delta [isoformat isoformat_seconds pad4 pad2 String.append].
  rewrite !compare_digit_cons, !compare_same_cons.
  repeat rewrite ?compare_digit_cons, ?compare_same_cons.
  rewrite (four_digits (year a) (year b)) by lia.
  rewrite (two_digits (month a) (month b)) by lia.
  rewrite (two_digits (day a) (day b)) by lia.
  rewrite (two_digits (hour a) (hour b)) by lia.
  rewrite (two_digits (minute a) (minute b)) by lia.
  rewrite (two_digits (second a) (second b)) by lia.
  do 6 f_equal.
  destruct (Z.eqb_spec (microsecond b) 0) as [E|E].
  - rewrite E. reflexivity.
  - destruct (microsecond b) as [|p|p]; [congruence | reflexivity | lia].
Qed.

Lemma timestamp_before_iff (a b : datetime) :
  datetime_ok a -> datetime_ok b ->
  String.ltb (isoformat_seconds a) (isoformat b) = true <->
  compare_datetime (truncate_seconds a) b = Lt.
Proof.
  intros Ha Hb. unfold String.ltb. rewrite (isoformat_compare a b Ha Hb).
  destruct (compare_datetime (truncate_seconds a) b); split; congruence.
Qed.

Lemma isoformat_truncated (b : datetime) :
  isoformat (truncate_seconds b) = isoformat_seconds b.
Proof.
  unfold isoformat. simpl microsecond. rewrite Z.eqb_refl.
  change (isoformat_seconds (truncate_seconds b)) with (isoformat_seconds b).
  induction (isoformat_seconds b) as [|c s IH]; simpl; congruence.
Qed.

Lemma truncate_seconds_ok (b : datetime) :
  datetime_ok b -> datetime_ok (truncate_seconds b).
Proof. unfold datetime_ok. simpl. lia. Qed.


(** ** The table *)

Module StoreFacts.
Import Store.

Lemma has_key_In (k : string) (t : table) :
  has_key k t = true <-> In k (keys t).
Proof.
  unfold has_key, keys. rewrite existsb_exists, in_map_iff.
  split; intros [r [H1 H2]]; exists r.
  - apply String.eqb_eq in H2. tauto.
  - rewrite String.eqb_eq. tauto.
Qed.

Lemma has_key_false (k : string) (t : table) :
  has_key k t = false <-> ~ In k (keys t).
Proof.
  rewrite <- has_key_In. destruct (has_key k t); split; congruence.
Qed.

Lemma keys_app (a b : table) : keys (a ++ b)%list = (keys a ++ keys b)%list.
Proof. apply map_app. Qed.

Lemma wf_insert_or_ignore (t : table) (r : Reading) :
  wf t -> wf (insert_or_ignore t r).
Proof.
  unfold wf, insert_or_ignore. intros H.
  destruct (has_key (timestamp r) t) eqn:E; [assumption|].
  apply has_key_false in E. rewrite keys_app. simpl.
  apply NoDup_app; [assumption | repeat constructor; simpl; tauto |].
  intros k Hk [<- | []]. contradiction.
Qed.

Lemma wf_executemany_insert (rows : list Reading) :
  forall t, wf t -> wf (executemany_insert t rows).
Proof.
  unfold executemany_insert.
  induction rows as [|r rows IH]; intros t H; simpl; [assumption|].
  apply IH, wf_insert_or_ignore, H.
Qed.

Lemma wf_filter (p : Reading -> bool) (t : table) : wf t -> wf (filter p t).
Proof.
  unfold wf, keys. induction t as [|r t IH]; simpl; intros H; [constructor|].
  inversion H as [|? ? Hn Hd]; subst.
  destruct (p r); simpl; [constructor|]; auto.
  intros Hin. apply Hn. apply in_map_iff in Hin as [x [Hx Hin]].
  apply filter_In in Hin. apply in_map_iff. exists x. tauto.
Qed.

Lemma wf_delete_before (c : string) (t : table) :
  wf t -> wf (delete_before c t).
Proof. apply wf_filter. Qed.

(** A key that is not in the table has no row, a key of a well-formed
    table has one. *)
Lemma rows_at_absent (k : string) (t : table) :
  ~ In k (keys t) -> rows_at k t = 0%nat.
Proof.
  unfold rows_at, keys. induction t as [|r t IH]; simpl; intros H; [reflexivity|].
  destruct (String.eqb_spec (timestamp r) k) as [E|E]; [tauto|].
  apply IH. tauto.
Qed.

Lemma rows_at_present (k : string) (t : table) :
  wf t -> In k (keys t) -> rows_at k t = 1%nat.
Proof.
  unfold wf, keys. induction t as [|r t IH]; simpl; intros Hwf Hin; [tauto|].
  inversion Hwf as [|? ? Hn Hd]; subst.
  unfold rows_at in *. simpl.
  destruct (String.eqb_spec (timestamp r) k) as [E|E].
  - subst k. simpl. f_equal. apply (rows_at_absent _ _ Hn).
  - apply IH; [assumption|]. destruct Hin; [contradiction | assumption].
Qed.

Lemma insert_or_ignore_present (t : table) (r : Reading) :
  has_key (timestamp r) t = true -> insert_or_ignore t r = t.
Proof. unfold insert_or_ignore. intros ->. reflexivity. Qed.

Lemma insert_or_ignore_has_key (t : table) (r : Reading) :
  has_key (timestamp r) (insert_or_ignore t r) = true.
Proof.
  unfold insert_or_ignore. destruct (has_key (timestamp r) t) eqn:E; [assumption|].
  apply has_key_In. rewrite keys_app. apply in_or_app. right. simpl. tauto.
Qed.

(** Rows and keys only accumulate under INSERT OR IGNORE. *)
Lemma insert_or_ignore_incl (t : table) (r x : Reading) :
  In x t -> In x (insert_or_ignore t r).
Proof.
  unfold insert_or_ignore. destruct (has_key _ _); [tauto|].
  intros H. apply in_or_app. tauto.
Qed.

Lemma executemany_insert_incl (rows : list Reading) :
  forall t x, In x t -> In x (executemany_insert t rows).
Proof.
  unfold executemany_insert.
  induction rows as [|r rows IH]; intros t x H; simpl; [assumption|].
  apply IH, insert_or_ignore_incl, H.
Qed.

Lemma executemany_insert_keeps_key (rows : list Reading) (t : table) (k : string) :
  has_key k t = true -> has_key k (executemany_insert t rows) = true.
Proof.
  rewrite !has_key_In. unfold keys. rewrite !in_map_iff.
  intros [x [E H]]. exists x. split; [assumption|].
  apply executemany_insert_incl, H.
Qed.

Lemma executemany_insert_has_key (rows : list Reading) :
  forall t r, In r rows -> has_key (timestamp r) (executemany_insert t rows) = true.
Proof.
  induction rows as [|x rows IH]; intros t r H; [destruct H|].
  destruct H as [-> | H].
  - change (executemany_insert t (r :: rows))
      with (executemany_insert (insert_or_ignore t r) rows).
    apply executemany_insert_keeps_key, insert_or_ignore_has_key.
  - change (executemany_insert t (x :: rows))
      with (executemany_insert (insert_or_ignore t x) rows).
    apply IH, H.
Qed.

(** A row with a fresh key, the first of the batch under that key, is
    stored as it is. *)
Lemma executemany_insert_stores (rows : list Reading) :
  forall t r,
    In r rows -> NoDup (map timestamp rows) ->
    has_key (timestamp r) t = false ->
    In r (executemany_insert t rows).
Proof.
  induction rows as [|x rows IH]; intros t r H Hnd Hk; [destruct H|].
  change (executemany_insert t (x :: rows))
    with (executemany_insert (insert_or_ignore t x) rows).
  simpl in Hnd. inversion Hnd as [|? ? Hx Hnd']; subst.
  destruct H as [-> | H].
  - apply executemany_insert_incl. unfold insert_or_ignore. rewrite Hk.
    apply in_or_app. simpl. tauto.
  - apply IH; [assumption | assumption |].
    unfold insert_or_ignore.
    destruct (has_key (timestamp x) t); [assumption|].
    apply has_key_false. rewrite keys_app. intros Hin.
    apply in_app_or in Hin as [Hin | [E | []]].
    + apply has_key_false in Hk. contradiction.
    + apply Hx. rewrite E. apply in_map, H.
Qed.

(** The rows INSERT OR IGNORE of a batch leaves: those the table held and,
    of the batch, the first reading under each timestamp the table did not
    hold. *)
Lemma executemany_insert_In (rows : list Reading) :
  forall t r,
    In r (executemany_insert t rows) <->
    In r t \/ (has_key (timestamp r) t = false /\ first_with_key rows r).
Proof.
  unfold first_with_key.
  induction rows as [|x rows IH]; intros t r.
  - simpl. split; [tauto | intros [H | [_ H]]; [assumption | discriminate]].
  - change (executemany_insert t (x :: rows))
      with (executemany_insert (insert_or_ignore t x) rows).
    rewrite IH. cbn [find]. unfold insert_or_ignore.
    destruct (String.eqb_spec (timestamp x) (timestamp r)) as [E|E];
      destruct (has_key (timestamp x) t) eqn:Hx.
    + rewrite <- E, Hx. split; intros [H | [H _]]; try tauto; discriminate.
    + assert (Hr : has_key (timestamp r) (t ++ [x])%list = true).
      { apply has_key_In. rewrite keys_app. apply in_or_app. simpl. auto. }
      rewrite Hr, <- E, Hx, in_app_iff. simpl. split.
      * intros [[H | [H | []]] | [H _]]; try tauto; try discriminate.
        right. split; congruence.
      * intros [H | [_ H]]; [tauto|]. left. right. left. congruence.
    + tauto.
    + assert (Hr : has_key (timestamp r) (t ++ [x])%list = has_key (timestamp r) t).
      { unfold has_key. rewrite existsb_app. simpl.
        destruct (String.eqb_spec (timestamp x) (timestamp r)); [contradiction|].
        rewrite !orb_false_r. reflexivity. }
      rewrite Hr, in_app_iff. simpl. split.
      * intros [[H | [H | []]] | H]; try tauto. subst x. contradiction.
      * tauto.
Qed.

(** A batch of fresh, pairwise distinct keys is appended as it is. *)
Lemma executemany_insert_fresh (rows : list Reading) :
  forall t, wf (t ++ rows)%list -> executemany_insert t rows = (t ++ rows)%list.
Proof.
  unfold wf.
  induction rows as [|x rows IH]; intros t H; [symmetry; apply app_nil_r|].
  change (executemany_insert t (x :: rows))
    with (executemany_insert (insert_or_ignore t x) rows).
  assert (Hx : has_key (timestamp x) t = false).
  { apply has_key_false. intros Hin. rewrite keys_app in H. simpl in H.
    apply NoDup_remove_2 in H. apply H, in_or_app. auto. }
  unfold insert_or_ignore. rewrite Hx.
  rewrite IH; rewrite <- app_assoc; [reflexivity | exact H].
Qed.

(** String order: [a < b] fails exactly when [b <= a]. *)
Lemma ltb_false_leb (a b : string) : String.ltb a b = false <-> String.leb b a = true.
Proof.
  unfold String.ltb, String.leb. rewrite (String.compare_antisym a b).
  destruct (String.compare b a); simpl; split; congruence.
Qed.

Lemma delete_before_In (c : string) (t : table) (r : Reading) :
  In r (delete_before c t) <-> In r t /\ String.ltb (timestamp r) c = false.
Proof.
  unfold delete_before. rewrite filter_In, negb_true_iff. tauto.
Qed.

End StoreFacts.

(** ** Reasoning about programs in [M] *)

Section Stable.
Variable R : State -> State -> Prop.
Hypothesis R_refl : forall s, R s s.
Hypothesis R_trans : forall a b c, R a b -> R b c -> R a c.

Lemma stable_ret {A} (a : A) : stable R (ret a).
Proof. intros s. apply R_refl. Qed.

Lemma stable_raise {A} (e : exn) : stable R (@raise A e).
Proof. intros s. apply R_refl. Qed.

Lemma stable_get : stable R get.
Proof. intros s. apply R_refl. Qed.

Lemma stable_call (o : option exn) : stable R (call o).
Proof. destruct o; [apply stable_raise | apply stable_ret]. Qed.

Lemma stable_lift {A} (r : result A) : stable R (lift r).
Proof. destruct r; [apply stable_ret | apply stable_raise]. Qed.

Lemma stable_modify (f : State -> State) :
  (forall s, R s (f s)) -> stable R (modify f).
Proof. intros H s. apply H. Qed.

Lemma stable_bind {A B} (m : M A) (k : A -> M B) :
  stable R m -> (forall a, stable R (k a)) -> stable R (bind m k).
Proof.
  intros Hm Hk s. unfold bind. specialize (Hm s).
  destruct (m s) as [[a|e] s1]; simpl in *; [|assumption].
  eapply R_trans; [eassumption | apply Hk].
Qed.

Lemma stable_try_except {A} (m : M A) (c : exn -> bool) (h : exn -> M A) :
  stable R m -> (forall e, stable R (h e)) -> stable R (try_except m c h).
Proof.
  intros Hm Hh s. unfold try_except. specialize (Hm s).
  destruct (m s) as [[a|e] s1]; simpl in *; [assumption|].
  destruct (c e); [|assumption].
  eapply R_trans; [eassumption | apply Hh].
Qed.

End Stable.

(** Taking apart a sequence: the state after [m ;; k]. *)
Lemma bind_run {A B} (m : M A) (k : A -> M B) (s : State) :
  bind m k s =
  match m s with
  | (Ok a, s1) => k a s1
  | (Raise e, s1) => (Raise e, s1)
  end.
Proof. reflexivity. Qed.

Lemma adds_refl p s : adds p s s.
Proof. exists []. rewrite app_nil_r. auto. Qed.

Lemma adds_trans p a b c : adds p a b -> adds p b c -> adds p a c.
Proof.
  intros [e1 [H1 F1]] [e2 [H2 F2]]. exists (e1 ++ e2)%list.
  rewrite H2, H1, app_assoc, forallb_app, F1, F2. auto.
Qed.

Lemma frame_refl {X} (f : State -> X) p s : frame f p s s.
Proof. split; [reflexivity | apply adds_refl]. Qed.

Lemma frame_trans {X} (f : State -> X) p a b c :
  frame f p a b -> frame f p b c -> frame f p a c.
Proof.
  intros [V1 A1] [V2 A2].
  split; [congruence | eapply adds_trans; eassumption].
Qed.

Lemma adds_weaken (p q : event -> bool) s s' :
  (forall e, p e = true -> q e = true) -> adds p s s' -> adds q s s'.
Proof.
  intros H [evs [E F]]. exists evs. split; [assumption|].
  rewrite forallb_forall in *. auto.
Qed.

Lemma frame_emit {X} (f : State -> X) p e :
  (forall s t, f (set_trace t s) = f s) -> p e = true ->
  stable (frame f p) (emit e).
Proof.
  intros V H. apply stable_modify. intros s.
  split; [apply V|]. exists [e]. simpl. rewrite H. auto.
Qed.

(** A field update that touches neither [f] nor the trace. *)
Lemma frame_quiet {X} (f : State -> X) p (g : State -> State) :
  (forall s, f (g s) = f s) -> (forall s, trace (g s) = trace s) ->
  stable (frame f p) (modify g).
Proof.
  intros V T. apply stable_modify. intros s.
  split; [apply V|]. exists []. rewrite T, app_nil_r. auto.
Qed.

Ltac frame_step :=
  first
    [ apply stable_bind; [apply frame_trans | | intros ? ]
    | apply stable_try_except; [apply frame_trans | | intros ? ]
    | apply stable_ret; apply frame_refl
    | apply stable_raise; apply frame_refl
    | apply stable_get; apply frame_refl
    | apply stable_call; apply frame_refl
    | apply stable_lift; apply frame_refl
    | apply frame_emit; [reflexivity | reflexivity]
    | apply frame_quiet; [reflexivity | reflexivity]
    | match goal with
      | |- stable _ (match ?x with _ => _ end) => destruct x
      end
    | progress unfold executemany, write_csv ].

Ltac frame_tac := repeat frame_step.

Lemma log_alert_frame i m : stable (frame vars no_event) (log_alert i m).
Proof. unfold log_alert. frame_tac. Qed.

Lemma is_online_frame probe : stable (frame vars is_probe) (is_online probe).
Proof. unfold is_online. frame_tac. Qed.

Lemma write_csv_frame o1 o2 rows :
  stable (frame vars no_event) (write_csv o1 o2 rows).
Proof. unfold write_csv. frame_tac. Qed.

Lemma export_last_week_frame i :
  stable (frame vars is_export_event) (export_last_week i).
Proof. unfold export_last_week. frame_tac. Qed.

Lemma push_git_frame i : stable (frame vars is_push_event) (push_git i).
Proof. unfold push_git. frame_tac. Qed.

Lemma executemany_frame o rows : stable (frame vars no_event) (executemany o rows).
Proof. unfold executemany. frame_tac. Qed.

Lemma commit_frame o : stable (frame vars is_main_commit) (commit o).
Proof. unfold commit. frame_tac. Qed.

Lemma purge_old_data_frame i :
  stable (frame vars is_main_commit) (purge_old_data i).
Proof. unfold purge_old_data. frame_tac. Qed.

(** Counting events across a run. *)
Lemma count_event_app e t u :
  count_event e (t ++ u)%list = (count_event e t + count_event e u)%nat.
Proof. unfold count_event. rewrite filter_app. apply length_app. Qed.

Lemma count_event_none e evs :
  forallb (is_not e) evs = true -> count_event e evs = 0%nat.
Proof.
  unfold count_event, is_not. induction evs as [|x evs IH]; simpl; [reflexivity|].
  intros H. apply andb_prop in H as [H1 H2].
  apply negb_true_iff in H1. rewrite H1. auto.
Qed.

Lemma adds_count e s s' :
  adds (is_not e) s s' -> count_event e (trace s') = count_event e (trace s).
Proof.
  intros [evs [E F]]. rewrite E, count_event_app, (count_event_none _ _ F). lia.
Qed.

Lemma emit_count e s :
  count_event e (trace (snd (emit e s))) = S (count_event e (trace s)).
Proof.
  simpl. rewrite count_event_app. unfold count_event at 2. simpl.
  replace (event_eqb e e) with true; [simpl; lia|].
  destruct e as [[]|[]|[]|[]| |[]]; simpl; try reflexivity.
  symmetry. apply String.eqb_refl.
Qed.

(** ** The schedule of the loop *)

(** The blocks before [sync_block] neither touch [last_git_push] nor enter
    the push, and [push_git] itself does not fire another one. *)
Lemma before_sync_frame i :
  stable (frame last_git_push (is_not (Fire Sync)))
         (sample_block i ;; flush_block i ;; purge_block i).
Proof. unfold sample_block, flush_block, purge_block. frame_tac. Qed.

Lemma push_git_keeps_sync i :
  stable (frame last_git_push (is_not (Fire Sync))) (push_git i).
Proof. unfold push_git. frame_tac. Qed.

Lemma sync_block_progress i s : sync_progress i s (snd (sync_block i s)).
Proof.
  unfold sync_block, sync_progress, fired. rewrite bind_run. simpl.
  destruct (sync_due (last_git_push s) (ti_now i)) eqn:Due; [|simpl; tauto].
  right.
  set (s1 := snd (emit (Fire Sync) s)).
  set (s2 := set_last_git_push (Some (strftime_interval_id (ti_now i))) s1).
  change (snd ((emit (Fire Sync) ;;
                modify (set_last_git_push (Some (strftime_interval_id (ti_now i)))) ;;
                push_git (ti_push i)) s))
    with (snd (push_git (ti_push i) s2)).
  destruct (push_git_keeps_sync (ti_push i) s2) as [K Ad].
  apply adds_count in Ad. rewrite K, Ad. subst s2. simpl.
  pose proof (emit_count (Fire Sync) s) as C1. fold s1 in C1. auto.
Qed.

Lemma tick_sync_progress i s : sync_progress i s (snd (tick i s)).
Proof.
  unfold tick.
  assert (G : forall s1, frame last_git_push (is_not (Fire Sync)) s s1 ->
                         sync_progress i s
                           (snd (bind (sync_block i)
                                      (fun _ => call (ti_sleep i)) s1))).
  { intros s1 [K Ad]. apply adds_count in Ad.
    pose proof (sync_block_progress i s1) as P. unfold bind.
    destruct (sync_block i s1) as [[u|e] s2]; simpl in *.
    - assert (E : snd (call (ti_sleep i) s2) = s2)
        by (destruct (ti_sleep i); reflexivity).
      rewrite E. unfold sync_progress, fired in *. rewrite <- K, <- Ad. exact P.
    - unfold sync_progress, fired in *. rewrite <- K, <- Ad. exact P. }
  assert (F : forall s1, frame last_git_push (is_not (Fire Sync)) s s1 ->
                         sync_progress i s s1).
  { intros s1 [K Ad]. left. apply adds_count in Ad. unfold fired. tauto. }
  pose proof (before_sync_frame i s) as H.
  unfold bind in *.
  destruct (sample_block i s) as [[u1|e1] s1]; simpl in *; [|auto].
  destruct (flush_block i s1) as [[u2|e2] s2]; simpl in *; [|auto].
  destruct (purge_block i s2) as [[u3|e3] s3]; simpl in *; [|auto].
  apply (G s3 H).
Qed.

Lemma shutdown_no_fire sd a :
  stable (frame (fun _ => tt) (is_not (Fire a))) (shutdown sd).
Proof. unfold shutdown. destruct a; frame_tac. Qed.

Lemma shutdown_count sd a s : fired a (snd (shutdown sd s)) = fired a s.
Proof. apply adds_count. apply (shutdown_no_fire sd a s). Qed.

(** An activity that arms a guard when it fires, and cannot fire while the
    guard is armed, fires at most once over iterations that keep the guard
    armed. *)
Section OncePerWindow.
Variable a : action.
Variable armed : State -> Prop.
Variable inside : TickIn -> Prop.

Hypothesis fire_arms :
  forall i s, inside i ->
    fired a (snd (tick i s)) = fired a s \/
    (fired a (snd (tick i s)) = S (fired a s) /\ armed (snd (tick i s))).
Hypothesis armed_holds :
  forall i s, inside i -> armed s ->
    fired a (snd (tick i s)) = fired a s /\ armed (snd (tick i s)).

Lemma loop_step i rest sd s :
  exists s', s' = snd (tick i s) /\
    (loop (i :: rest) sd s = loop rest sd s' \/
     fired a (final_state (loop (i :: rest) sd s)) = fired a s').
Proof.
  exists (snd (tick i s)). split; [reflexivity|]. simpl.
  destruct (tick i s) as [[u|e] s1]; simpl; [left; reflexivity|].
  right. destruct e; simpl; try reflexivity.
  pose proof (shutdown_count sd a s1) as C.
  destruct (shutdown sd s1) as [[u|e] s2]; simpl in *; exact C.
Qed.

Lemma loop_armed ticks sd :
  Forall inside ticks ->
  forall s, armed s -> fired a (final_state (loop ticks sd s)) = fired a s.
Proof.
  induction 1 as [|i rest Hi Hrest IH]; intros s Ha; [reflexivity|].
  destruct (armed_holds i s Hi Ha) as [C A].
  destruct (loop_step i rest sd s) as [s' [-> [E | E]]].
  - rewrite E, (IH _ A). exact C.
  - rewrite E. exact C.
Qed.

Lemma loop_once ticks sd :
  Forall inside ticks ->
  forall s, (fired a (final_state (loop ticks sd s)) <= S (fired a s))%nat.
Proof.
  induction 1 as [|i rest Hi Hrest IH]; intros s; [simpl; lia|].
  destruct (loop_step i rest sd s) as [s' [-> [E | E]]].
  - rewrite E. destruct (fire_arms i s Hi) as [C | [C A]].
    + rewrite <- C. apply IH.
    + rewrite (loop_armed rest sd Hrest _ A). lia.
  - rewrite E. destruct (fire_arms i s Hi) as [C | [C A]]; lia.
Qed.

End OncePerWindow.

(** Over a whole run in which the iterations that satisfy [inside] follow
    one another, the activity is entered by at most one of them. *)
Section OncePerRun.
Variable a : action.
Variable armed : State -> Prop.
Variable inside : TickIn -> bool.

Hypothesis fire_arms :
  forall i s, inside i = true ->
    fired a (snd (tick i s)) = fired a s \/
    (fired a (snd (tick i s)) = S (fired a s) /\ armed (snd (tick i s))).
Hypothesis armed_holds :
  forall i s, inside i = true -> armed s ->
    fired a (snd (tick i s)) = fired a s /\ armed (snd (tick i s)).

Lemma fired_inside_outside ticks :
  Forall (fun i => inside i = false) ticks ->
  forall s, fired_inside a inside ticks s = 0%nat.
Proof.
  induction 1 as [|i rest Hi Hrest IH]; intros s; simpl; [reflexivity|].
  rewrite Hi. destruct (tick i s) as [[u|e] s1]; simpl; [apply IH | reflexivity].
Qed.

Lemma fired_inside_armed mid post :
  Forall (fun i => inside i = true) mid ->
  Forall (fun i => inside i = false) post ->
  forall s, armed s -> fired_inside a inside (mid ++ post) s = 0%nat.
Proof.
  intros Hmid Hpost. induction Hmid as [|i rest Hi Hrest IH]; intros s Ha.
  - apply fired_inside_outside, Hpost.
  - simpl. rewrite Hi. destruct (armed_holds i s Hi Ha) as [C A].
    rewrite C, Nat.sub_diag.
    destruct (tick i s) as [[u|e] s1]; simpl in *; [apply IH, A | reflexivity].
Qed.

Lemma fired_inside_window mid post :
  Forall (fun i => inside i = true) mid ->
  Forall (fun i => inside i = false) post ->
  forall s, (fired_inside a inside (mid ++ post) s <= 1)%nat.
Proof.
  intros Hmid Hpost. induction Hmid as [|i rest Hi Hrest IH]; intros s.
  - simpl. rewrite (fired_inside_outside _ Hpost). lia.
  - simpl. rewrite Hi. destruct (fire_arms i s Hi) as [C | [C A]].
    + rewrite C, Nat.sub_diag.
      destruct (tick i s) as [[u|e] s1]; simpl in *; [apply IH | lia].
    + rewrite C.
      replace (S (fired a s) - fired a s)%nat with 1%nat by lia.
      pose proof (fired_inside_armed rest post Hrest Hpost) as Z0.
      destruct (tick i s) as [[u|e] s1]; cbn [snd] in *;
        [rewrite (Z0 _ A)|]; lia.
Qed.

Lemma fired_inside_run pre mid post :
  Forall (fun i => inside i = false) pre ->
  Forall (fun i => inside i = true) mid ->
  Forall (fun i => inside i = false) post ->
  forall s, (fired_inside a inside (pre ++ mid ++ post) s <= 1)%nat.
Proof.
  intros Hpre Hmid Hpost. induction Hpre as [|i rest Hi Hrest IH]; intros s.
  - apply (fired_inside_window mid post Hmid Hpost).
  - simpl. rewrite Hi. destruct (tick i s) as [[u|e] s1]; simpl; [apply IH | lia].
Qed.

End OncePerRun.

Lemma sync_due_armed now x :
  strftime_interval_id now = x -> sync_due (Some x) now = false.
Proof.
  intros <-. unfold sync_due. rewrite String.eqb_refl. simpl.
  apply andb_false_r.
Qed.

Lemma sync_due_true last now :
  sync_due last now = true ->
  minute now mod 30 = 0 /\ last <> Some (strftime_interval_id now).
Proof.
  unfold sync_due. intros H. apply andb_prop in H as [H1 H2].
  split; [apply Z.eqb_eq, H1|].
  destruct last as [x|]; [|discriminate].
  apply negb_true_iff, String.eqb_neq in H2. congruence.
Qed.

(** C6, as the script has it: the push fires only on an iteration whose
    minute is a multiple of 30 and whose identifier is not the one recorded
    by the last fire, and that iteration records its own identifier before
    the push is attempted.  So over iterations that share one identifier the
    push is entered at most once, and in a whole run whose iterations under
    an identifier follow one another at most one of them enters the push. *)
Theorem sync_once_per_identifier :
  (forall i s,
     (fired Sync (snd (tick i s)) = fired Sync s /\
      last_git_push (snd (tick i s)) = last_git_push s)
     \/
     (fired Sync (snd (tick i s)) = S (fired Sync s) /\
      minute (ti_now i) mod 30 = 0 /\
      last_git_push s <> Some (strftime_interval_id (ti_now i)) /\
      last_git_push (snd (tick i s)) = Some (strftime_interval_id (ti_now i))))
  /\
  (forall ticks sd s x,
     Forall (fun i => strftime_interval_id (ti_now i) = x) ticks ->
     (fired Sync (final_state (loop ticks sd s)) <= S (fired Sync s))%nat)
  /\
  (forall x pre mid post s,
     Forall (fun i => in_minute x i = false) pre ->
     Forall (fun i => in_minute x i = true) mid ->
     Forall (fun i => in_minute x i = false) post ->
     (fired_inside Sync (in_minute x) (pre ++ mid ++ post) s <= 1)%nat).
Proof.
  assert (Arms : forall x i s, strftime_interval_id (ti_now i) = x ->
            fired Sync (snd (tick i s)) = fired Sync s \/
            (fired Sync (snd (tick i s)) = S (fired Sync s) /\
             last_git_push (snd (tick i s)) = Some x)).
  { intros x i s Hi. destruct (tick_sync_progress i s) as [[C K] | [C [K D]]].
    - left. exact C.
    - right. split; [exact C | congruence]. }
  assert (Holds : forall x i s, strftime_interval_id (ti_now i) = x ->
            last_git_push s = Some x ->
            fired Sync (snd (tick i s)) = fired Sync s /\
            last_git_push (snd (tick i s)) = Some x).
  { intros x i s Hi Ha.
    destruct (tick_sync_progress i s) as [[C K] | [C [K D]]].
    - split; [exact C | congruence].
    - rewrite Ha, (sync_due_armed _ _ Hi) in D. discriminate. }
  split; [|split].
  - intros i s. destruct (tick_sync_progress i s) as [[C K] | [C [K D]]].
    + left. split; assumption.
    + right. apply sync_due_true in D. tauto.
  - intros ticks sd s x H.
    apply (loop_once Sync (fun s => last_git_push s = Some x)
                     (fun i => strftime_interval_id (ti_now i) = x));
      [apply Arms | apply Holds | exact H].
  - intros x pre mid post s Hpre Hmid Hpost.
    apply (fired_inside_run Sync (fun s => last_git_push s = Some x)
                            (in_minute x)); try assumption.
    + intros i s0 Hi. apply Arms, String.eqb_eq, Hi.
    + intros i s0 Hi. apply Holds, String.eqb_eq, Hi.
Qed.

(** *** The daily purge *)

Lemma before_purge_frame i :
  stable (frame last_purge_day (is_not (Fire Purge)))
         (sample_block i ;; flush_block i).
Proof. unfold sample_block, flush_block. frame_tac. Qed.

Lemma after_purge_frame i :
  stable (frame last_purge_day (is_not (Fire Purge)))
         (sync_block i ;; call (ti_sleep i)).
Proof. unfold sync_block, push_git. frame_tac. Qed.

Lemma purge_old_data_keeps_purge i :
  stable (frame last_purge_day (is_not (Fire Purge))) (purge_old_data i).
Proof. unfold purge_old_data. frame_tac. Qed.

Lemma purge_block_fires i s :
  purge_due (last_purge_day s) (ti_now i) = true ->
  fired Purge (snd (purge_block i s)) = S (fired Purge s) /\
  last_purge_day (snd (purge_block i s)) = Some (date (ti_now i)).
Proof.
  intros Due. unfold purge_block. rewrite bind_run. simpl. rewrite Due.
  set (s1 := snd (emit (Fire Purge) s)).
  set (s2 := set_last_purge_day (Some (date (ti_now i))) s1).
  change (snd ((emit (Fire Purge) ;;
                modify (set_last_purge_day (Some (date (ti_now i)))) ;;
                purge_old_data (ti_purge i)) s))
    with (snd (purge_old_data (ti_purge i) s2)).
  destruct (purge_old_data_keeps_purge (ti_purge i) s2) as [K Ad].
  apply adds_count in Ad. unfold fired. rewrite K, Ad. subst s2. simpl.
  pose proof (emit_count (Fire Purge) s) as C1. fold s1 in C1. auto.
Qed.

Lemma purge_block_progress i s : purge_progress i s (snd (purge_block i s)).
Proof.
  destruct (purge_due (last_purge_day s) (ti_now i)) eqn:Due.
  - right. destruct (purge_block_fires i s Due). tauto.
  - left. unfold purge_block. rewrite bind_run. simpl. rewrite Due. simpl. tauto.
Qed.

Lemma tick_purge_progress i s : purge_progress i s (snd (tick i s)).
Proof.
  assert (Pre : forall s1 s2,
             frame last_purge_day (is_not (Fire Purge)) s s1 ->
             purge_progress i s1 s2 -> purge_progress i s s2).
  { intros s1 s2 [K Ad] P. apply adds_count in Ad.
    unfold purge_progress, fired in *. rewrite <- K, <- Ad. exact P. }
  assert (Post : forall s2 s3,
             purge_progress i s s2 ->
             frame last_purge_day (is_not (Fire Purge)) s2 s3 ->
             purge_progress i s s3).
  { intros s2 s3 P [K Ad]. apply adds_count in Ad.
    unfold purge_progress, fired in *. rewrite K, Ad. exact P. }
  pose proof (before_purge_frame i s) as H.
  unfold tick. unfold bind in *.
  destruct (sample_block i s) as [[u1|e1] s1]; simpl in *;
    [|apply (Pre s1 s1 H); left; tauto].
  destruct (flush_block i s1) as [[u2|e2] s2]; simpl in *;
    [|apply (Pre s2 s2 H); left; tauto].
  pose proof (purge_block_progress i s2) as P.
  pose proof (after_purge_frame i) as A. unfold stable, bind in A.
  destruct (purge_block i s2) as [[u3|e3] s3]; simpl in *;
    [|apply (Pre s2 s3 H P)].
  apply (Post s3); [apply (Pre s2 s3 H P) | apply A].
Qed.

Lemma date_eqb_refl d : date_eqb d d = true.
Proof. destruct d as [[y m] d]. simpl. rewrite !Z.eqb_refl. reflexivity. Qed.

Lemma date_eqb_eq a b : date_eqb a b = true -> a = b.
Proof.
  destruct a as [[y1 m1] d1], b as [[y2 m2] d2]. simpl.
  rewrite !andb_true_iff, !Z.eqb_eq. intros [[-> ->] ->]. reflexivity.
Qed.

Lemma purge_due_armed now d :
  date now = d -> purge_due (Some d) now = false.
Proof. intros <-. unfold purge_due. rewrite date_eqb_refl. reflexivity. Qed.

Lemma startup_vars su s0 s :
  startup su s0 = (Ok tt, s) ->
  buffer s = [] /\ last_log s = su_mono_log su /\
  last_flush s = su_mono_flush su /\ last_git_push s = None /\
  last_purge_day s = None.
Proof.
  unfold startup, log_alert. unfold bind.
  destruct (su_sensor su); simpl; [discriminate|].
  destruct (su_mkdir su); simpl; [discriminate|].
  destruct (su_connect su); simpl; [discriminate|].
  destruct (su_schema su); simpl; [discriminate|].
  destruct (al_io (su_alert su)); simpl; [discriminate|].
  intros E. inversion E. simpl. tauto.
Qed.

(** C10: the script starts with no purge day recorded, so the purge is due
    whatever the date, and the first iteration that reaches the purge block
    enters it once and records the date.  Over iterations that share one
    calendar date the purge is entered at most once, and in a whole run whose
    iterations on a date follow one another at most one of them enters the
    purge. *)
Theorem purge_on_start_then_daily :
  (forall su s0 s i,
     startup su s0 = (Ok tt, s) ->
     purge_due (last_purge_day s) (ti_now i) = true /\
     forall s1, (sample_block i ;; flush_block i) s = (Ok tt, s1) ->
       fired Purge (snd (tick i s)) = S (fired Purge s) /\
       last_purge_day (snd (tick i s)) = Some (date (ti_now i)))
  /\
  (forall ticks sd s d,
     Forall (fun i => date (ti_now i) = d) ticks ->
     (fired Purge (final_state (loop ticks sd s)) <= S (fired Purge s))%nat)
  /\
  (forall d pre mid post s,
     Forall (fun i => on_date d i = false) pre ->
     Forall (fun i => on_date d i = true) mid ->
     Forall (fun i => on_date d i = false) post ->
     (fired_inside Purge (on_date d) (pre ++ mid ++ post) s <= 1)%nat).
Proof.
  assert (Arms : forall d i s, date (ti_now i) = d ->
            fired Purge (snd (tick i s)) = fired Purge s \/
            (fired Purge (snd (tick i s)) = S (fired Purge s) /\
             last_purge_day (snd (tick i s)) = Some d)).
  { intros d i s Hi. destruct (tick_purge_progress i s) as [[C K] | [C [K D]]].
    - left. exact C.
    - right. split; [exact C | congruence]. }
  assert (Holds : forall d i s, date (ti_now i) = d ->
            last_purge_day s = Some d ->
            fired Purge (snd (tick i s)) = fired Purge s /\
            last_purge_day (snd (tick i s)) = Some d).
  { intros d i s Hi Ha.
    destruct (tick_purge_progress i s) as [[C K] | [C [K D]]].
    - split; [exact C | congruence].
    - rewrite Ha, (purge_due_armed _ _ Hi) in D. discriminate. }
  split; [|split].
  - intros su s0 s i Hs. apply startup_vars in Hs as (_ & _ & _ & _ & Hp).
    rewrite Hp. split; [reflexivity|]. intros s1 E.
    pose proof (before_purge_frame i s) as [K Ad]. rewrite E in K, Ad.
    simpl in K, Ad. apply adds_count in Ad.
    pose proof (after_purge_frame i) as A. unfold stable in A.
    assert (T : snd (tick i s) =
                match purge_block i s1 with
                | (Ok _, s2) => snd ((sync_block i ;; call (ti_sleep i)) s2)
                | (Raise _, s2) => s2
                end).
    { unfold tick. unfold bind in *.
      destruct (sample_block i s) as [[u1|e1] t1]; simpl in *; [|discriminate].
      destruct (flush_block i t1) as [[u2|e2] t2]; simpl in *; [|discriminate].
      inversion E; subst t2.
      destruct (purge_block i s1) as [[u3|e3] t3]; reflexivity. }
    assert (D : purge_due (last_purge_day s1) (ti_now i) = true)
      by (rewrite K, Hp; reflexivity).
    destruct (purge_block_fires i s1 D) as [C L].
    rewrite T. unfold fired in *.
    destruct (purge_block i s1) as [[u3|e3] s2]; simpl in *.
    + destruct (A s2) as [K2 Ad2]. apply adds_count in Ad2.
      rewrite K2, Ad2, C, Ad, L. tauto.
    + rewrite C, Ad, L. tauto.
  - intros ticks sd s d H.
    apply (loop_once Purge (fun s => last_purge_day s = Some d)
                     (fun i => date (ti_now i) = d));
      [apply Arms | apply Holds | exact H].
  - intros d pre mid post s Hpre Hmid Hpost.
    apply (fired_inside_run Purge (fun s => last_purge_day s = Some d)
                            (on_date d)); try assumption.
    + intros i s0 Hi. apply Arms, date_eqb_eq, Hi.
    + intros i s0 Hi. apply Holds, date_eqb_eq, Hi.
Qed.

(** ** The flush (lines 207-217) *)

Lemma flush_due_iff buf mono last :
  flush_due buf mono last = true <->
  (DB_BATCH_SIZE <= List.length buf)%nat \/
  PrimFloat.leb (float_of_int DB_FLUSH_INTERVAL) (PrimFloat.sub mono last) = true.
Proof.
  unfold flush_due, elapsed_at_least.
  rewrite orb_true_iff, Nat.leb_le. tauto.
Qed.

(** The difference is rounded before it is compared.  The floats nearest to
    301.2 and 1.2 are less than 300 apart, by about a hundredth of a
    picosecond; their binary64 difference is 300 and the flush is due. *)
Example flush_due_rounds :
  flush_due [] (PrimFloat.div (float_of_int 3012) (float_of_int 10))
            (PrimFloat.div (float_of_int 12) (float_of_int 10)) = true /\
  PrimFloat.sub (PrimFloat.div (float_of_int 3012) (float_of_int 10))
                (PrimFloat.div (float_of_int 12) (float_of_int 10))
    = float_of_int 300.
Proof. split; reflexivity. Qed.

Lemma sample_block_no_flush i :
  stable (frame (fun _ => tt) (is_not (Fire Flush))) (sample_block i).
Proof. unfold sample_block. frame_tac. Qed.

Lemma after_flush_frame i :
  stable (frame (fun _ => tt) (is_not (Fire Flush)))
         (purge_block i ;; sync_block i ;; call (ti_sleep i)).
Proof. unfold purge_block, sync_block, purge_old_data, push_git. frame_tac. Qed.

(** Within an iteration only the flush block enters the flush. *)
Lemma tick_flush_count i s0 s :
  sample_block i s0 = (Ok tt, s) ->
  fired Flush s = fired Flush s0 /\
  fired Flush (snd (tick i s0)) = fired Flush (snd (flush_block i s)).
Proof.
  intros E. pose proof (sample_block_no_flush i s0) as [_ Ad].
  rewrite E in Ad. apply adds_count in Ad. split; [exact Ad|].
  unfold tick. rewrite bind_run, E, bind_run.
  pose proof (after_flush_frame i) as A. unfold stable in A.
  destruct (flush_block i s) as [[u|e] s2]; simpl; [|reflexivity].
  destruct (A s2) as [_ Ad2]. apply adds_count in Ad2. exact Ad2.
Qed.

(** C1: in every iteration the flush body is entered by the flush block only,
    and exactly when the batch holds at least DB_BATCH_SIZE readings or the
    binary64 difference between the clock read at line 209 and the flush
    timer is at least DB_FLUSH_INTERVAL; otherwise the block does nothing.
    When insert and commit both succeed the committed table holds the rows
    the connection saw before and, of the batch, the first reading under
    each timestamp that was not stored yet: a batch of fresh, pairwise
    distinct timestamps is appended whole and in order, a reading whose
    timestamp is taken is skipped.  The batch is then empty and the timer
    reset; when insert or commit raises, the batch, the timer and the
    committed rows are as before. *)
Theorem flush_block_spec (i : TickIn) (s : State) :
  let s' := snd (flush_block i s) in
  let due := (DB_BATCH_SIZE <= List.length (buffer s))%nat \/
             PrimFloat.leb (float_of_int DB_FLUSH_INTERVAL)
                           (PrimFloat.sub (ti_mono_flush i) (last_flush s)) = true in
  ((due /\ fired Flush s' = S (fired Flush s)) \/
   (~ due /\ flush_block i s = (Ok tt, s)))
  /\
  (forall s0, sample_block i s0 = (Ok tt, s) ->
     fired Flush s = fired Flush s0 /\
     fired Flush (snd (tick i s0)) = fired Flush s')
  /\
  (due ->
   match ti_insert i, ti_commit i with
   | None, None =>
       fst (flush_block i s) = Ok tt /\
       (forall r,
          In r (disk s') <->
          In r (view s) \/
          (Store.has_key (timestamp r) (view s) = false /\
           first_with_key (buffer s) r)) /\
       (Store.wf (view s ++ buffer s)%list ->
        disk s' = (view s ++ buffer s)%list) /\
       view s' = disk s' /\
       (forall r, In r (buffer s) -> Store.has_key (timestamp r) (disk s') = true) /\
       buffer s' = [] /\ last_flush s' = ti_mono_flush_set i
   | None, Some e =>
       fst (flush_block i s) = Raise e /\
       buffer s' = buffer s /\ last_flush s' = last_flush s /\ disk s' = disk s
   | Some (k, e), _ =>
       fst (flush_block i s) = Raise e /\
       buffer s' = buffer s /\ last_flush s' = last_flush s /\ disk s' = disk s
   end).
Proof.
  cbv zeta. rewrite <- flush_due_iff.
  assert (T := fun s0 => tick_flush_count i s0 s). revert T.
  unfold flush_block. rewrite bind_run. simpl. intros T.
  destruct (flush_due (buffer s) (ti_mono_flush i) (last_flush s)) eqn:Due.
  - unfold executemany, commit, call, fired.
    destruct (ti_insert i) as [[k e]|]; destruct (ti_commit i) as [e'|];
      simpl;
      (split;
       [left; split; [reflexivity|];
        unfold count_event; rewrite ?filter_app, ?length_app; simpl; lia
       | split; [exact T | intros _]]);
      try (repeat split; reflexivity).
    split; [reflexivity|].
    split; [intros r; apply StoreFacts.executemany_insert_In|].
    split; [apply StoreFacts.executemany_insert_fresh|].
    split; [reflexivity|].
    split; [|split; reflexivity].
    intros r Hr. apply StoreFacts.executemany_insert_has_key, Hr.
  - simpl. split; [right; split; [congruence | reflexivity] |].
    split; [exact T | congruence].
Qed.

(** ** Idempotent insert and retention *)

Lemma set_view_same s : set_view (view s) s = s.
Proof. destruct s. reflexivity. Qed.

(** C2: on a table that respects the primary key, INSERT OR IGNORE of a
    reading whose timestamp is already a key returns normally, changes
    nothing, and the table holds exactly one row under that timestamp; and
    inserting any reading twice leaves exactly one row under its timestamp,
    the second insert being a no-op. *)
Theorem insert_or_ignore_idempotent (s : State) (r : Reading) :
  Store.wf (view s) ->
  (Store.has_key (timestamp r) (view s) = true ->
     executemany None [r] s = (Ok tt, s) /\
     Store.rows_at (timestamp r) (view s) = 1%nat)
  /\
  (let once := Store.insert_or_ignore (view s) r in
   Store.insert_or_ignore once r = once /\
   Store.rows_at (timestamp r) once = 1%nat /\
   Store.wf once).
Proof.
  intros Hwf. split.
  - intros Hk. split.
    + unfold executemany, modify, Store.executemany_insert. simpl.
      rewrite (StoreFacts.insert_or_ignore_present _ _ Hk), set_view_same.
      reflexivity.
    + apply StoreFacts.rows_at_present; [exact Hwf|].
      apply StoreFacts.has_key_In, Hk.
  - cbv zeta.
    pose proof (StoreFacts.insert_or_ignore_has_key (view s) r) as Hk.
    pose proof (StoreFacts.wf_insert_or_ignore (view s) r Hwf) as Hwf'.
    split; [apply StoreFacts.insert_or_ignore_present, Hk|].
    split; [|exact Hwf'].
    apply StoreFacts.rows_at_present; [exact Hwf'|].
    apply StoreFacts.has_key_In, Hk.
Qed.

Lemma purge_old_data_disk (i : PurgeIn) (s : State) :
  pu_delete i = None -> pu_commit i = None ->
  let cutoff := isoformat (minus_days (pu_now i) RETENTION_DAYS) in
  disk (snd (purge_old_data i s)) = Store.delete_before cutoff (view s) /\
  view (snd (purge_old_data i s)) = Store.delete_before cutoff (view s).
Proof.
  intros Hd Hc. unfold purge_old_data, commit, log_alert, call.
  rewrite Hd, Hc. destruct (al_io (pu_alert i)); split; reflexivity.
Qed.

(** C3: when the DELETE and the commit of [purge_old_data] succeed, the
    committed table holds exactly the rows it held whose timestamp is not
    below the cutoff text [isoformat(now - 365 days)]: every row strictly
    older is gone, every row at or after the cutoff is still there.  For a
    row stamped by the sampler the text order is the order of instants: the
    row stays exactly when its instant is not before now minus 365 days. *)
Theorem purge_retention (i : PurgeIn) (s : State) :
  pu_delete i = None -> pu_commit i = None ->
  let horizon := minus_days (pu_now i) RETENTION_DAYS in
  let cutoff := isoformat horizon in
  let s' := snd (purge_old_data i s) in
  (forall r, String.ltb (timestamp r) cutoff = true -> ~ In r (disk s')) /\
  (forall r, In r (view s) -> String.leb cutoff (timestamp r) = true ->
             In r (disk s')) /\
  (forall r, In r (disk s') -> In r (view s)) /\
  view s' = disk s' /\
  (al_io (pu_alert i) = None -> fst (purge_old_data i s) = Ok tt) /\
  (datetime_ok horizon ->
   forall r t, datetime_ok t -> timestamp r = isoformat_seconds t ->
     In r (view s) ->
     (In r (disk s') <-> compare_datetime (truncate_seconds t) horizon <> Lt)).
Proof.
  intros Hd Hc. cbv zeta.
  destruct (purge_old_data_disk i s Hd Hc) as [D V]. rewrite V, D.
  split; [|split; [|split; [|split; [reflexivity|split]]]].
  - intros r Hlt Hin. apply StoreFacts.delete_before_In in Hin as [_ Hin].
    congruence.
  - intros r Hin Hle. apply StoreFacts.delete_before_In. split; [exact Hin|].
    apply StoreFacts.ltb_false_leb, Hle.
  - intros r Hin. apply StoreFacts.delete_before_In in Hin. tauto.
  - unfold purge_old_data, commit, log_alert, call. rewrite Hd, Hc.
    intros ->. reflexivity.
  - intros Hh r t Ht Hr Hin. rewrite StoreFacts.delete_before_In, Hr.
    pose proof (timestamp_before_iff t _ Ht Hh) as B.
    destruct (String.ltb (isoformat_seconds t)
                (isoformat (minus_days (pu_now i) RETENTION_DAYS))).
    + split; [intros [_ F]; discriminate | intros N; exfalso; tauto].
    + split; [intros _ L; apply B in L; discriminate | tauto].
Qed.

(** ** Shutdown (lines 236-244) *)

(** After an interrupt the handler decides the outcome; the iterations that
    would have followed are never run. *)
Lemma loop_interrupted i rest sd s s1 :
  tick i s = (Raise KeyboardInterrupt, s1) ->
  loop (i :: rest) sd s =
  match shutdown sd s1 with
  | (Ok _, s2) => Exited s2
  | (Raise e, s2) => Crashed e s2
  end.
Proof. intros E. simpl. rewrite E. reflexivity. Qed.

Lemma count_app_one e t x :
  count_event e (t ++ [x])%list =
  (count_event e t + (if event_eqb e x then 1 else 0))%nat.
Proof.
  rewrite count_event_app. unfold count_event at 2. simpl.
  destruct (event_eqb e x); reflexivity.
Qed.

(** C4: the handler, from whatever state the interrupt found, closes the
    connection only after the batch, if there is one, went through INSERT OR
    IGNORE and was committed.  The committed table then holds the rows the
    connection saw before and, of the batch, the first reading under each
    timestamp that was not stored yet; every buffered timestamp is a key of
    it.  When no call of the handler fails it returns, having committed and
    then closed once and written the last line of the log; a batch of fresh,
    pairwise distinct timestamps is stored whole and in order, and a
    buffered reading whose timestamp was already stored under another row is
    in no row afterwards.  An iteration that raises [KeyboardInterrupt]
    hands over to the handler: the loop is not entered again, whatever
    iterations would have followed. *)
Theorem shutdown_drains (sd : ShutdownIn) (s1 : State) :
  let s2 := snd (shutdown sd s1) in
  (closed MainConn s2 = closed MainConn s1 \/
   (closed MainConn s2 = S (closed MainConn s1) /\
    (buffer s1 = [] -> disk s2 = disk s1) /\
    (buffer s1 <> [] ->
     forall r,
       In r (disk s2) <->
       In r (view s1) \/
       (Store.has_key (timestamp r) (view s1) = false /\
        first_with_key (buffer s1) r)) /\
    forall r, In r (buffer s1) ->
      Store.has_key (timestamp r) (disk s2) = true))
  /\
  (sd_insert sd = None -> sd_commit sd = None -> sd_close sd = None ->
   al_io (sd_alert sd) = None ->
   fst (shutdown sd s1) = Ok tt /\
   trace s2 =
     (trace s1 ++
      match buffer s1 with [] => [] | _ :: _ => [Commit MainConn] end ++
      [Close MainConn])%list /\
   alerts s2 =
     (alerts s1 ++
      [(isoformat_seconds (al_now (sd_alert sd)), "Logger stopped cleanly")])%list /\
   view s2 = disk s2 /\
   (buffer s1 <> [] -> Store.wf (view s1 ++ buffer s1)%list ->
    disk s2 = (view s1 ++ buffer s1)%list) /\
   (forall r, In r (buffer s1) ->
      Store.has_key (timestamp r) (view s1) = true -> ~ In r (view s1) ->
      ~ In r (disk s2)))
  /\
  (forall i rest s,
     tick i s = (Raise KeyboardInterrupt, s1) ->
     loop (i :: rest) sd s = loop [i] sd s /\
     final_state (loop (i :: rest) sd s) = s2 /\
     (fst (shutdown sd s1) = Ok tt -> loop (i :: rest) sd s = Exited s2)).
Proof.
  cbv zeta. split; [|split].
  - unfold closed, shutdown, executemany, commit, log_alert, call.
    rewrite bind_run. simpl.
    destruct (buffer s1) as [|r0 rows] eqn:B.
    + destruct (sd_close sd); simpl; [left; reflexivity|].
      destruct (al_io (sd_alert sd)); simpl; right;
        rewrite count_app_one; simpl;
        (split; [lia | split; [reflexivity | split; [congruence | intros r []]]]).
    + destruct (sd_insert sd) as [[k e]|]; simpl; [left; reflexivity|].
      destruct (sd_commit sd); simpl; [left; reflexivity|].
      destruct (sd_close sd); simpl;
        [left; rewrite count_app_one; simpl; lia|].
      destruct (al_io (sd_alert sd)); simpl; right;
        rewrite !count_app_one; simpl;
        (split; [lia | split; [discriminate | split]]);
        try (intros _ r; apply (StoreFacts.executemany_insert_In (r0 :: rows)));
        intros r Hr;
        apply (StoreFacts.executemany_insert_has_key (r0 :: rows)), Hr.
  - intros Hi Hc Hx Ha.
    unfold shutdown, executemany, commit, log_alert, call.
    rewrite bind_run, Hi, Hc, Hx, Ha. simpl.
    destruct (buffer s1) as [|r0 rows] eqn:B; simpl;
      (split; [reflexivity | split; [|split; [reflexivity | split; [reflexivity|]]]]).
    + reflexivity.
    + split; [congruence | intros r []].
    + rewrite <- app_assoc. reflexivity.
    + split.
      * intros _. apply (StoreFacts.executemany_insert_fresh (r0 :: rows)).
      * intros r Hr Hk Hn Hin.
        apply (StoreFacts.executemany_insert_In (r0 :: rows)) in Hin
          as [Hin | [Hf _]]; [contradiction | congruence].
  - intros i rest s E.
    rewrite (loop_interrupted i rest sd s s1 E), (loop_interrupted i [] sd s s1 E).
    split; [reflexivity|].
    destruct (shutdown sd s1) as [[u|e] s2]; simpl;
      (split; [reflexivity|]); [reflexivity | discriminate].
Qed.

(** ** The push when offline (lines 132-139) *)

Lemma logs_refl p s : logs p s s.
Proof. exists []. rewrite app_nil_r. auto. Qed.

Lemma logs_trans p a b c : logs p a b -> logs p b c -> logs p a c.
Proof.
  intros [l1 [H1 F1]] [l2 [H2 F2]]. exists (l1 ++ l2)%list.
  rewrite H2, H1, app_assoc, forallb_app, F1, F2. auto.
Qed.

Lemma logs_append p x :
  p x = true ->
  stable (logs p) (modify (fun s => set_alerts (alerts s ++ [x])%list s)).
Proof. intros H s. exists [x]. simpl. rewrite H. auto. Qed.

Lemma logs_quiet p (g : State -> State) :
  (forall s, alerts (g s) = alerts s) -> stable (logs p) (modify g).
Proof. intros H s. exists []. simpl. rewrite H, app_nil_r. auto. Qed.

Ltac logs_step :=
  first
    [ apply stable_bind; [apply logs_trans | | intros ? ]
    | apply stable_try_except; [apply logs_trans | | intros ? ]
    | apply stable_ret; apply logs_refl
    | apply stable_raise; apply logs_refl
    | apply stable_get; apply logs_refl
    | apply stable_call; apply logs_refl
    | apply stable_lift; apply logs_refl
    | apply logs_append; reflexivity
    | apply logs_quiet; reflexivity
    | match goal with
      | |- stable _ (match ?x with _ => _ end) => destruct x
      end
    | progress unfold executemany, write_csv, log_alert ].

Lemma export_last_week_logs i :
  stable (logs (fun l => negb (notes_skip l))) (export_last_week i).
Proof. unfold export_last_week. repeat logs_step. Qed.

Lemma count_skips_none l :
  forallb (fun l => negb (notes_skip l)) l = true -> count_skips l = 0%nat.
Proof.
  unfold count_skips. induction l as [|x l IH]; simpl; [reflexivity|].
  intros H. apply andb_prop in H as [H1 H2].
  apply negb_true_iff in H1. rewrite H1. auto.
Qed.

(** C7: when the probe fails with an [OSError], [push_git] returns normally;
    after the export it only runs the probe, so no [git] command is invoked,
    and among the lines it appends to the alert log exactly one, the last,
    notes the skip. *)
Theorem push_git_offline_skips (i : PushIn) (s s1 : State) (e : exn) :
  export_last_week (pg_export i) s = (Ok tt, s1) ->
  pg_probe i = Some e -> is_OSError e = true ->
  al_io (pg_alert i) = None ->
  let s2 := snd (push_git i s) in
  push_git i s = (Ok tt, s2) /\
  trace s2 = (trace s1 ++ [Probe])%list /\
  (exists evs, trace s2 = (trace s ++ evs)%list /\
               forallb (fun x => negb (is_git x)) evs = true) /\
  (exists lines,
     alerts s2 =
       (alerts s ++ lines ++
        [(isoformat_seconds (al_now (pg_alert i)), skip_message)])%list /\
     count_skips
       (lines ++ [(isoformat_seconds (al_now (pg_alert i)), skip_message)]) = 1%nat).
Proof.
  intros Ex Hp He Ha. cbv zeta.
  assert (R : push_git i s =
              (Ok tt,
               set_alerts
                 (alerts s1 ++
                  [(isoformat_seconds (al_now (pg_alert i)), skip_message)])%list
                 (set_trace (trace s1 ++ [Probe])%list s1))).
  { unfold push_git. rewrite bind_run, Ex.
    unfold is_online, try_except, log_alert, call, bind.
    rewrite Hp. simpl. rewrite He, Ha. reflexivity. }
  rewrite R. simpl.
  split; [reflexivity|]. split; [reflexivity|].
  pose proof (export_last_week_frame (pg_export i) s) as [_ [evs [T F]]].
  pose proof (export_last_week_logs (pg_export i) s) as [lines [A L]].
  rewrite Ex in T, A. simpl in T, A.
  split.
  - exists (evs ++ [Probe])%list. rewrite T, app_assoc. split; [reflexivity|].
    rewrite forallb_app. simpl. rewrite andb_true_r.
    rewrite forallb_forall in *. intros x Hx. specialize (F x Hx).
    destruct x as [?|[]|?|[]| |?]; simpl in *; congruence.
  - exists lines. rewrite A, app_assoc. split; [reflexivity|].
    pose proof (count_skips_none _ L) as Z0. unfold count_skips in *.
    rewrite filter_app, length_app.
    change (Datatypes.length (filter notes_skip lines)) with (count_skips lines).
    unfold count_skips in Z0 |- *. rewrite Z0. reflexivity.
Qed.

(** ** The weekly export (lines 87-130) *)

Lemma select_since_sorted c t :
  Sorted (fun a b => String.leb (timestamp a) (timestamp b) = true)
         (Store.select_since c t).
Proof. unfold Store.select_since. apply Store.KeySort.Sorted_sort. Qed.

Lemma select_since_perm c t :
  Permutation (filter (fun r => String.leb c (timestamp r)) t)
              (Store.select_since c t).
Proof. unfold Store.select_since. apply Store.KeySort.Permuted_sort. Qed.



(** ** Connections to the store *)

Lemma tick_not_main_conn i :
  stable (frame (fun _ => tt) not_main_conn) (tick i).
Proof.
  unfold tick, sample_block, flush_block, purge_block, sync_block,
    purge_old_data, push_git.
  frame_tac.
Qed.

Lemma adds_not_main_conn s s' :
  adds not_main_conn s s' ->
  opened MainConn s' = opened MainConn s /\ closed MainConn s' = closed MainConn s.
Proof.
  intros H. unfold opened, closed.
  split; apply adds_count; revert H; apply adds_weaken; intros e;
    unfold not_main_conn; rewrite andb_true_iff; tauto.
Qed.

Lemma shutdown_main_conn sd s :
  opened MainConn (snd (shutdown sd s)) = opened MainConn s /\
  match fst (shutdown sd s) with
  | Ok _ => closed MainConn (snd (shutdown sd s)) = S (closed MainConn s)
  | Raise e =>
      closed MainConn (snd (shutdown sd s)) = closed MainConn s \/
      (closed MainConn (snd (shutdown sd s)) = S (closed MainConn s) /\
       al_io (sd_alert sd) = Some e)
  end.
Proof.
  unfold opened, closed, shutdown, executemany, commit, log_alert, call.
  rewrite bind_run. simpl.
  destruct (buffer s) as [|r0 rows]; simpl.
  - destruct (sd_close sd); simpl; [auto|].
    destruct (al_io (sd_alert sd)); simpl; rewrite !count_app_one; simpl;
      split; try lia; right; split; [lia | reflexivity].
  - destruct (sd_insert sd) as [[k e]|]; simpl; [auto|].
    destruct (sd_commit sd); simpl; [auto|].
    destruct (sd_close sd); simpl; [rewrite !count_app_one; simpl; auto with arith|].
    destruct (al_io (sd_alert sd)); simpl; rewrite !count_app_one; simpl;
      split; try lia; right; split; [lia | reflexivity].
Qed.

Lemma loop_main_conn ticks sd :
  forall s,
    opened MainConn (final_state (loop ticks sd s)) = opened MainConn s /\
    match loop ticks sd s with
    | Running s' => closed MainConn s' = closed MainConn s
    | Exited s' => closed MainConn s' = S (closed MainConn s)
    | Crashed e s' =>
        closed MainConn s' = closed MainConn s \/
        (closed MainConn s' = S (closed MainConn s) /\
         al_io (sd_alert sd) = Some e)
    end.
Proof.
  induction ticks as [|i rest IH]; intros s; simpl; [auto|].
  destruct (tick_not_main_conn i s) as [_ Ad].
  apply adds_not_main_conn in Ad as [O C].
  destruct (tick i s) as [[u|e] s1]; simpl in *.
  - rewrite <- O, <- C. apply IH.
  - destruct e; simpl; try (rewrite O, C; auto).
    pose proof (shutdown_main_conn sd s1) as [O' C'].
    destruct (shutdown sd s1) as [[u|e] s2]; simpl in *;
      rewrite <- O, <- C; auto.
Qed.

(** A run that is still looping goes on with the iterations that follow. *)
Lemma loop_app_running pre rest sd :
  forall s s1,
    loop pre sd s = Running s1 -> loop (pre ++ rest) sd s = loop rest sd s1.
Proof.
  induction pre as [|i pre IH]; intros s s1; simpl.
  - intros E. inversion E. reflexivity.
  - destruct (tick i s) as [[u|e] s']; [apply IH|].
    destruct e; try discriminate.
    destruct (shutdown sd s') as [[u|e] s'']; discriminate.
Qed.

Lemma startup_main_conn su db log csv :
  let r := startup su (boot db log csv) in
  closed MainConn (snd r) = 0%nat /\
  (opened MainConn (snd r) <= 1)%nat /\
  (fst r = Ok tt -> opened MainConn (snd r) = 1%nat) /\
  (opened MainConn (snd r) = 1%nat <->
   su_sensor su = None /\ su_mkdir su = None /\ su_connect su = None).
Proof.
  cbv zeta. unfold startup, log_alert, call, bind, boot.
  destruct (su_sensor su); simpl;
    [repeat split; auto; try discriminate; intros (H & _); discriminate|].
  destruct (su_mkdir su); simpl;
    [repeat split; auto; try discriminate; intros (_ & H & _); discriminate|].
  destruct (su_connect su); simpl;
    [repeat split; auto; try discriminate; intros (_ & _ & H); discriminate|].
  destruct (su_schema su); simpl; [repeat split; auto|].
  destruct (al_io (su_alert su)); simpl; repeat split; auto.
Qed.

(** The events of an export: its own connection is opened when line 94 is
    reached and returns, and closed when line 110 is reached and returns. *)
Lemma export_last_week_events i s :
  trace (snd (export_last_week i s)) =
  (trace s ++
   match ex_mkdir i, ex_connect i with
   | None, None =>
       Connect ExportConn ::
       match ex_query i, ex_close i with
       | None, None => [Close ExportConn]
       | _, _ => []
       end
   | _, _ => []
   end)%list.
Proof.
  unfold export_last_week, write_csv, log_alert, try_except, call, bind.
  destruct (ex_mkdir i) as [e|]; simpl; [symmetry; apply app_nil_r|].
  destruct (ex_connect i) as [e|]; simpl.
  { destruct (is_Exception e); [destruct (al_io (ex_alert_except i))|]; simpl;
      symmetry; apply app_nil_r. }
  destruct (ex_query i) as [e|]; simpl.
  { destruct (is_Exception e); [destruct (al_io (ex_alert_except i))|]; simpl;
      reflexivity. }
  destruct (ex_close i) as [e|]; simpl.
  { destruct (is_Exception e); [destruct (al_io (ex_alert_except i))|]; simpl;
      reflexivity. }
  destruct (Store.select_since _ _) as [|r0 rows]; simpl.
  - destruct (al_io (ex_alert i)) as [e|]; simpl;
      [destruct (is_Exception e); [destruct (al_io (ex_alert_except i))|]|];
      simpl; rewrite <- app_assoc; reflexivity.
  - destruct (ex_open i) as [e|]; simpl;
      [destruct (is_Exception e); [destruct (al_io (ex_alert_except i))|];
       simpl; rewrite <- app_assoc; reflexivity|].
    destruct (ex_write i) as [[k e]|]; simpl;
      [destruct (is_Exception e); [destruct (al_io (ex_alert_except i))|];
       simpl; rewrite <- app_assoc; reflexivity|].
    destruct (al_io (ex_alert i)) as [e|]; simpl;
      [destruct (is_Exception e); [destruct (al_io (ex_alert_except i))|]|];
      simpl; rewrite <- app_assoc; reflexivity.
Qed.

(** C9, as the script has it.  The main connection is opened by the startup
    code only, once, as soon as line 47 returns, and closed by the interrupt
    handler only: it is open and not closed for as long as the loop runs,
    opened once and closed once in a run the handler ends, and in a run that
    an exception ends it is closed only if that exception is the failure to
    write the last log line, after line 243; a run ended by an exception of
    an iteration leaves it open.  It is not the only connection: an export
    whose directory and connect calls succeed opens one of its own and
    leaves the main one as it is; it closes its own when query and close
    succeed, and not otherwise. *)
Theorem connections_of_a_run (su : StartupIn) (ticks : list TickIn)
    (sd : ShutdownIn) (db : Store.table) (log : list alert_line)
    (csv : option (list csv_row)) :
  let o := main su ticks sd (boot db log csv) in
  ((opened MainConn (final_state o) <= 1)%nat /\
   (closed MainConn (final_state o) <= opened MainConn (final_state o))%nat /\
   (opened MainConn (final_state o) = 1%nat <->
    su_sensor su = None /\ su_mkdir su = None /\ su_connect su = None)) /\
  match o with
  | Running s => opened MainConn s = 1%nat /\ closed MainConn s = 0%nat
  | Exited s => opened MainConn s = 1%nat /\ closed MainConn s = 1%nat
  | Crashed e s =>
      closed MainConn s = 0%nat \/
      (closed MainConn s = 1%nat /\ opened MainConn s = 1%nat /\
       al_io (sd_alert sd) = Some e)
  end /\
  (forall s pre i rest e s1 s2,
     startup su (boot db log csv) = (Ok tt, s) ->
     loop pre sd s = Running s1 ->
     tick i s1 = (Raise e, s2) -> is_KeyboardInterrupt e = false ->
     main su (pre ++ i :: rest) sd (boot db log csv) = Crashed e s2 /\
     opened MainConn s2 = 1%nat /\ closed MainConn s2 = 0%nat) /\
  (forall i s,
     let s' := snd (export_last_week i s) in
     opened MainConn s' = opened MainConn s /\
     closed MainConn s' = closed MainConn s /\
     (ex_mkdir i = None -> ex_connect i = None ->
      opened ExportConn s' = S (opened ExportConn s)) /\
     (ex_mkdir i <> None \/ ex_connect i <> None ->
      opened ExportConn s' = opened ExportConn s /\
      closed ExportConn s' = closed ExportConn s) /\
     (ex_mkdir i = None -> ex_connect i = None ->
      ex_query i = None -> ex_close i = None ->
      closed ExportConn s' = S (closed ExportConn s)) /\
     (ex_query i <> None \/ ex_close i <> None ->
      closed ExportConn s' = closed ExportConn s)).
Proof.
  cbv zeta.
  pose proof (startup_main_conn su db log csv) as (C0 & O0 & O1 & O2).
  cbv zeta in C0, O0, O1, O2.
  split; [|split; [|split]].
  - unfold main.
    destruct (startup su (boot db log csv)) as [[[]|e] s0]; simpl in *.
    + specialize (O1 eq_refl).
      pose proof (loop_main_conn ticks sd s0) as [O C].
      rewrite O. split; [lia|]. split; [|exact O2].
      rewrite O1. destruct (loop ticks sd s0); simpl in *; lia.
    + split; [exact O0|]. split; [lia | exact O2].
  - unfold main.
    destruct (startup su (boot db log csv)) as [[[]|e] s0]; simpl in *;
      [|left; exact C0].
    specialize (O1 eq_refl).
    pose proof (loop_main_conn ticks sd s0) as [O C].
    destruct (loop ticks sd s0); simpl in *; [lia | lia |].
    destruct C as [C | [C A]]; [left; lia | right; repeat split; [lia | lia | exact A]].
  - intros s pre i rest e s1 s2 Hs Hl Ht He.
    unfold main. rewrite Hs in *. simpl in C0, O1. specialize (O1 eq_refl).
    rewrite (loop_app_running pre (i :: rest) sd s s1 Hl).
    pose proof (loop_main_conn pre sd s) as [O C]. rewrite Hl in O, C.
    simpl in O, C.
    destruct (tick_not_main_conn i s1) as [_ Ad].
    apply adds_not_main_conn in Ad as [O' C']. rewrite Ht in O', C'.
    simpl in O', C'.
    simpl. rewrite Ht.
    split; [destruct e; try reflexivity; discriminate | lia].
  - intros i s. unfold opened, closed.
    rewrite export_last_week_events, !count_event_app.
    destruct (ex_mkdir i) as [e1|]; [|destruct (ex_connect i) as [e2|];
      [|destruct (ex_query i) as [e3|]; [|destruct (ex_close i) as [e4|]]]];
      unfold count_event; simpl;
      repeat split; try lia; try discriminate; try tauto;
      try (intros [H|H]; congruence).
Qed.

(** ** A concrete machine *)

Lemma demo_state_wf : Store.wf (view demo_state).
Proof.
  unfold Store.wf. simpl. repeat constructor; simpl; intuition discriminate.
Defined.

Lemma insert_or_ignore_idempotent_witness :
  executemany None [demo_recent] demo_state = (Ok tt, demo_state) /\
  Store.rows_at (timestamp demo_recent) (view demo_state) = 1%nat.
Proof.
  apply (proj1 (insert_or_ignore_idempotent demo_state demo_recent demo_state_wf)).
  reflexivity.
Defined.

Lemma purge_retention_witness :
  In demo_recent (disk (snd (purge_old_data (demo_purge demo_now) demo_state))) /\
  ~ In demo_old (disk (snd (purge_old_data (demo_purge demo_now) demo_state))).
Proof.
  destruct (purge_retention (demo_purge demo_now) demo_state eq_refl eq_refl)
    as (Gone & _ & _ & _ & _ & Kept).
  split.
  - apply (Kept ltac:(vm_compute; intuition discriminate) demo_recent
                (mkDatetime 2025 11 1 0 0 0 0)
                ltac:(vm_compute; intuition discriminate) eq_refl).
    + simpl. auto.
    + vm_compute. discriminate.
  - apply Gone. reflexivity.
Defined.

Lemma demo_waiting_fresh :
  Store.wf (view demo_waiting ++ buffer demo_waiting)%list.
Proof.
  unfold Store.wf. simpl. repeat constructor; simpl; intuition discriminate.
Defined.

Lemma flush_block_spec_witness :
  disk (snd (flush_block (demo_tick demo_now 300 (Ok 2150) None None)
                         demo_waiting)) =
  (view demo_waiting ++ buffer demo_waiting)%list.
Proof.
  destruct (flush_block_spec (demo_tick demo_now 300 (Ok 2150) None None)
                             demo_waiting) as [_ [_ H]].
  destruct (H (or_intror eq_refl)) as (_ & _ & F & _).
  exact (F demo_waiting_fresh).
Defined.

(** The flush does not store the entire batch when a time stamp repeats.  On
    the night daylight saving time ends the reading sampled at the second
    01:00:03 is alone in the batch when the third iteration flushes: insert
    and commit succeed and the batch is cleared, but the row stored under
    that time stamp is still the one of an hour before. *)
Lemma flush_skips_repeated_timestamp :
  let i := demo_tick demo_now 3660 (Ok 2130) None None in
  let before :=
    final_state (loop (firstn 2 demo_dst_night) demo_shutdown demo_state) in
  let s := snd (sample_block i before) in
  let s' := snd (flush_block i s) in
  nth_error demo_dst_night 2 = Some i /\
  buffer s = [demo_again] /\
  flush_block i s = (Ok tt, s') /\
  fired Flush s' = S (fired Flush s) /\
  buffer s' = [] /\
  disk s' = [demo_recent; demo_first; demo_second] /\
  ~ In demo_again (disk s') /\
  disk (final_state (loop demo_dst_night demo_shutdown demo_state)) = disk s'.
Proof.
  vm_compute. repeat split. intuition discriminate.
Qed.

Lemma shutdown_drains_witness :
  disk (snd (shutdown demo_shutdown demo_waiting)) =
  (view demo_waiting ++ buffer demo_waiting)%list.
Proof.
  destruct (shutdown_drains demo_shutdown demo_waiting) as [_ [H _]].
  destruct (H eq_refl eq_refl eq_refl eq_refl) as (_ & _ & _ & _ & F & _).
  apply F; [discriminate | exact demo_waiting_fresh].
Defined.

(** A batch held at shutdown can be lost without a trace.  On the night
    daylight saving time ends the logger is interrupted right after it
    sampled at the second 01:00:03: the handler runs to its end and the log
    says the logger stopped cleanly, but the reading it held is in no row,
    the row of the first 01:00:03 having taken its key. *)
Lemma shutdown_drops_repeated_timestamp :
  let o := loop demo_dst_interrupted demo_shutdown demo_state in
  let before :=
    final_state (loop (firstn 3 demo_dst_interrupted) demo_shutdown demo_state) in
  let i := demo_tick demo_now 3660 (Ok 2130) None (Some KeyboardInterrupt) in
  nth_error demo_dst_interrupted 3 = Some i /\
  fst (tick i before) = Raise KeyboardInterrupt /\
  buffer (snd (tick i before)) = [demo_again] /\
  o = Exited (final_state o) /\
  closed MainConn (final_state o) = 1%nat /\
  disk (final_state o) = [demo_recent; demo_first; demo_second; demo_third] /\
  ~ In demo_again (disk (final_state o)) /\
  last (alerts (final_state o)) ("", "") =
    ("2025-11-02T01:00:03", "Logger stopped cleanly").
Proof.
  vm_compute. repeat split. intuition discriminate.
Qed.

Lemma sync_once_per_identifier_witness :
  Nat.le
    (fired Sync
       (final_state
          (loop [demo_tick demo_now 60 (Ok 2150) None None;
                 demo_tick demo_now 61 (Ok 2150) None None]
                demo_shutdown demo_state)))
    (S (fired Sync demo_state)).
Proof.
  apply (proj1 (proj2 sync_once_per_identifier)
               [demo_tick demo_now 60 (Ok 2150) None None;
                demo_tick demo_now 61 (Ok 2150) None None]
               demo_shutdown demo_state "2025-11-02_01_00").
  repeat constructor.
Defined.

(** One push per identifier does not hold when local time repeats: the guard
    remembers the last identifier only, so the identifier of 01:00 is pushed
    by the first and again by the third iteration. *)
Lemma sync_refires_when_clock_steps_back :
  map (fun i => strftime_interval_id (ti_now i)) demo_dst_night =
    ["2025-11-02_01_00"; "2025-11-02_01_30"; "2025-11-02_01_00"] /\
  fired_inside Sync (in_minute "2025-11-02_01_00") demo_dst_night demo_state
    = 2%nat /\
  count_event (Git GitPush)
    (trace (final_state (loop demo_dst_night demo_shutdown demo_state))) = 3%nat.
Proof. vm_compute. repeat split. Qed.

Lemma purge_on_start_then_daily_witness :
  fired Purge (snd (tick (demo_tick demo_now 60 (Ok 2150) None None) demo_state))
    = S (fired Purge demo_state) /\
  Nat.le
    (fired Purge
       (final_state
          (loop [demo_tick demo_now 60 (Ok 2150) None None;
                 demo_tick demo_now 61 (Ok 2150) None None]
                demo_shutdown demo_state)))
    (S (fired Purge demo_state)).
Proof.
  destruct purge_on_start_then_daily as (First & Day & _).
  split.
  - destruct (First demo_startup (boot [demo_old; demo_recent] [] None)
                    demo_state (demo_tick demo_now 60 (Ok 2150) None None)
                    eq_refl) as [_ H].
    destruct (H (snd ((sample_block (demo_tick demo_now 60 (Ok 2150) None None) ;;
                       flush_block (demo_tick demo_now 60 (Ok 2150) None None))
                        demo_state))
                eq_refl) as [H1 _].
    exact H1.
  - apply (Day [demo_tick demo_now 60 (Ok 2150) None None;
                demo_tick demo_now 61 (Ok 2150) None None]
               demo_shutdown demo_state (2025, 11, 2)).
    repeat constructor.
Defined.

(** One purge per calendar date does not hold when the date steps back: the
    guard remembers the last purge date only.  The date changes at midnight
    and a time synchronisation then sets the clock back by two seconds; the
    purge runs in each of the three iterations, twice on 2 November. *)
Lemma purge_refires_when_date_steps_back :
  map (fun i => date (ti_now i)) demo_midnight =
    [(2025, 11, 2); (2025, 11, 3); (2025, 11, 2)] /\
  fired_inside Purge (on_date (2025, 11, 2)) demo_midnight demo_state = 2%nat /\
  fired Purge (final_state (loop demo_midnight demo_shutdown demo_state)) =
    (3 + fired Purge demo_state)%nat.
Proof. vm_compute. repeat split. Qed.

Lemma push_git_offline_skips_witness :
  fst (push_git (demo_push demo_now (Some (OSError "unreachable"))) demo_state)
  = Ok tt.
Proof.
  destruct (push_git_offline_skips
              (demo_push demo_now (Some (OSError "unreachable"))) demo_state
              (snd (export_last_week (demo_export demo_now) demo_state))
              (OSError "unreachable")) as [H _].
  - vm_compute. reflexivity.
  - reflexivity.
  - reflexivity.
  - reflexivity.
  - rewrite H. reflexivity.
Defined.


Lemma connections_of_a_run_witness :
  opened MainConn
    (final_state
       (main demo_startup [demo_tick demo_now 60 (Ok 2150) None None]
             demo_shutdown (boot [demo_old; demo_recent] [] None))) = 1%nat.
Proof.
  destruct (connections_of_a_run demo_startup
              [demo_tick demo_now 60 (Ok 2150) None None] demo_shutdown
              [demo_old; demo_recent] [] None) as [(_ & _ & H) _].
  apply H. repeat split.
Defined.

(** The main connection is not the only one: on the first push the export
    connects while the main connection is open. *)
Lemma second_connection_opened :
  let s :=
    final_state
      (main demo_startup [demo_tick demo_now 60 (Ok 2150) None None]
            demo_shutdown (boot [demo_old; demo_recent] [] None)) in
  List.length (filter is_connect (trace s)) = 2%nat /\
  opened ExportConn s = 1%nat /\ closed MainConn s = 0%nat.
Proof. vm_compute. repeat split. Qed.

(** ** A sensor fault (lines 188-202) *)

(** A fault of the temperature read, other than an interrupt, leaves the
    loop: nothing was appended to the batch, nothing was logged, and no
    later iteration runs. *)
Lemma sensor_fault_unwinds i rest sd s e :
  sample_due (ti_mono_log i) (last_log s) = true ->
  ti_temperature i = Raise e -> is_KeyboardInterrupt e = false ->
  loop (i :: rest) sd s =
  Crashed e (set_last_log (ti_mono_log_set i)
                          (set_trace (trace s ++ [Fire Sample])%list s)).
Proof.
  intros Due T K. simpl. unfold tick, sample_block.
  rewrite !bind_run. simpl. rewrite Due. unfold bind. simpl. rewrite T. simpl.
  destruct e; [discriminate | | | |]; reflexivity.
Qed.

(** C5, on the script: one minute after startup the temperature read fails
    with an [OSError].  The exception leaves the loop and ends the process;
    the alert log and the batch are as before, and the next iteration, due a
    minute later, never runs. *)
Theorem sensor_fault_stops_logger :
  let fault := demo_tick demo_now 60 (Raise (OSError "Remote I/O error")) None None in
  let next := demo_tick demo_now 120 (Ok 2150) None None in
  sample_due (ti_mono_log fault) (last_log demo_state) = true /\
  exists s',
    loop [fault; next] demo_shutdown demo_state
      = Crashed (OSError "Remote I/O error") s' /\
    tick fault demo_state = (Raise (OSError "Remote I/O error"), s') /\
    alerts s' = alerts demo_state /\
    buffer s' = buffer demo_state /\
    fired Sample s' = 1%nat.
Proof.
  cbv zeta. split; [reflexivity|].
  eexists. split; [|split; [|split; [|split]]].
  - apply sensor_fault_unwinds; reflexivity.
  - vm_compute. reflexivity.
  - reflexivity.
  - reflexivity.
  - vm_compute. reflexivity.
Qed.

(** ** The push when online (lines 141-158) *)

(** What [push_git] does after the export when the probe succeeds. *)
Lemma push_git_online_run (i : PushIn) (s s1 : State) :
  export_last_week (pg_export i) s = (Ok tt, s1) ->
  pg_probe i = None ->
  push_git i s =
  let s2 := set_trace (trace s1 ++ Probe :: git_invoked i)%list s1 in
  let logged e := log_alert (pg_alert_except i) ("[GIT ERROR] " ++ str_exn e) in
  match git_fault i with
  | None =>
      try_except (log_alert (pg_alert i) "[GIT] Push successful")
                 is_CalledProcessError logged s2
  | Some e => if is_CalledProcessError e then logged e s2 else (Raise e, s2)
  end.
Proof.
  intros Ex Hp. unfold push_git, git_invoked. cbv zeta.
  generalize ("Weather DB update " ++ strftime_commit (pg_now i)).
  intros msg. rewrite bind_run, Ex. unfold git_fault.
  destruct s1 as [b ll lf lg lp d v al csv tr].
  destruct (pg_add i) as [e1|]; [|destruct (pg_commit i) as [e2|];
    [|destruct (pg_push i) as [e3|]]];
    try destruct (is_CalledProcessError _) eqn:C;
    try destruct (al_io (pg_alert_except i)) as [x|] eqn:A;
    try destruct (al_io (pg_alert i)) as [y|] eqn:B;
    cbv beta iota zeta delta
      [bind ret raise call modify emit try_except is_online log_alert get
       set_trace set_alerts negb trace alerts buffer last_log last_flush
       last_git_push last_purge_day disk view csv_last_week fst snd];
    rewrite ?Hp, ?C, ?A, ?B;
    cbv beta iota zeta delta
      [bind ret raise call modify emit try_except is_online log_alert get
       set_trace set_alerts negb trace alerts buffer last_log last_flush
       last_git_push last_purge_day disk view csv_last_week fst snd];
    rewrite ?C, ?A, ?B;
    repeat (rewrite <- app_assoc; cbn [app]); reflexivity.
Qed.

(** X1: with the host reachable and the three commands succeeding,
    [push_git] invokes add, commit and push in this order, the commit
    message carrying the minute read at line 133, logs the success and
    returns. *)
Theorem push_git_online_pushes (i : PushIn) (s s1 : State) :
  export_last_week (pg_export i) s = (Ok tt, s1) ->
  pg_probe i = None ->
  pg_add i = None -> pg_commit i = None -> pg_push i = None ->
  al_io (pg_alert i) = None ->
  let s2 := snd (push_git i s) in
  fst (push_git i s) = Ok tt /\
  trace s2 =
    (trace s1 ++
     [Probe; Git GitAdd;
      Git (GitCommit ("Weather DB update " ++ strftime_commit (pg_now i)));
      Git GitPush])%list /\
  alerts s2 =
    (alerts s1 ++
     [(isoformat_seconds (al_now (pg_alert i)), "[GIT] Push successful")])%list.
Proof.
  intros Ex Hp Ha Hc Hu Hl. cbv zeta.
  rewrite (push_git_online_run i s s1 Ex Hp). cbv zeta.
  unfold git_fault, git_invoked. rewrite Ha, Hc, Hu.
  unfold try_except, log_alert, call, bind. rewrite Hl.
  repeat split.
Qed.

(** X2: when a [git] command exits with an error ([CalledProcessError]),
    the commands after it are not invoked, the error text is logged as one
    [[GIT ERROR]] line and [push_git] returns normally: a failed add runs
    neither commit nor push, a failed commit runs no push. *)
Theorem push_git_failed_step (i : PushIn) (s s1 : State) (m : string) :
  export_last_week (pg_export i) s = (Ok tt, s1) ->
  pg_probe i = None ->
  git_fault i = Some (CalledProcessError m) ->
  al_io (pg_alert_except i) = None ->
  let s2 := snd (push_git i s) in
  fst (push_git i s) = Ok tt /\
  trace s2 = (trace s1 ++ Probe :: git_invoked i)%list /\
  alerts s2 =
    (alerts s1 ++
     [(isoformat_seconds (al_now (pg_alert_except i)),
       ("[GIT ERROR] " ++ m)%string)])%list /\
  (pg_add i <> None -> git_invoked i = [Git GitAdd]) /\
  (pg_commit i <> None -> count_event (Git GitPush) (git_invoked i) = 0%nat).
Proof.
  intros Ex Hp Hf Hl. cbv zeta.
  rewrite (push_git_online_run i s s1 Ex Hp). cbv zeta. rewrite Hf.
  cbn [is_CalledProcessError str_exn].
  unfold log_alert, call, bind. rewrite Hl.
  split; [reflexivity|]. split; [reflexivity|]. split; [reflexivity|].
  unfold git_invoked, git_fault in *.
  split.
  - destruct (pg_add i); [reflexivity | congruence].
  - intros Hc. destruct (pg_add i); [reflexivity|].
    destruct (pg_commit i); [reflexivity | congruence].
Qed.

(** X3: a [git] invocation that fails with anything but a
    [CalledProcessError] (no [git] executable, an interrupt) is not caught:
    the exception leaves [push_git], nothing about it is logged, and the
    later commands are not invoked. *)
Theorem push_git_fault_escapes (i : PushIn) (s s1 : State) (e : exn) :
  export_last_week (pg_export i) s = (Ok tt, s1) ->
  pg_probe i = None ->
  git_fault i = Some e -> is_CalledProcessError e = false ->
  let s2 := snd (push_git i s) in
  fst (push_git i s) = Raise e /\
  trace s2 = (trace s1 ++ Probe :: git_invoked i)%list /\
  alerts s2 = alerts s1.
Proof.
  intros Ex Hp Hf He. cbv zeta.
  rewrite (push_git_online_run i s s1 Ex Hp). cbv zeta. rewrite Hf, He.
  repeat split.
Qed.


(** ** Faults of the export (lines 93-130) *)

(** X4: an [Exception] raised by the database calls of the export, or by
    opening the destination file, is caught: the export returns normally,
    logs one [[CSV WEEKLY ERROR]] line with the error text, and leaves the
    file and the database as they were. *)
Theorem export_fault_is_logged (i : ExportIn) (s : State) (e : exn) :
  ex_mkdir i = None -> is_Exception e = true ->
  al_io (ex_alert_except i) = None ->
  export_db_fault i = Some e \/
  (export_db_fault i = None /\ export_rows i s <> [] /\ ex_open i = Some e) ->
  let s' := snd (export_last_week i s) in
  fst (export_last_week i s) = Ok tt /\
  alerts s' =
    (alerts s ++
     [(isoformat_seconds (al_now (ex_alert_except i)),
       ("[CSV WEEKLY ERROR] " ++ str_exn e)%string)])%list /\
  csv_last_week s' = csv_last_week s /\
  disk s' = disk s /\ view s' = view s.
Proof.
  intros Hm He Hl Hf. cbv zeta.
  unfold export_db_fault, export_rows in Hf.
  unfold export_last_week, write_csv, log_alert, try_except, call, bind.
  rewrite Hm. simpl.
  destruct Hf as [Hf | (Hf & Hr & Ho)].
  - destruct (ex_connect i) as [e1|]; simpl.
    { inversion Hf; subst e1. rewrite He, Hl. repeat split. }
    destruct (ex_query i) as [e2|]; simpl.
    { inversion Hf; subst e2. rewrite He, Hl. repeat split. }
    rewrite Hf. simpl. rewrite He, Hl. repeat split.
  - destruct (ex_connect i) as [e1|]; [discriminate|]. simpl.
    destruct (ex_query i) as [e2|]; [discriminate|]. simpl.
    rewrite Hf. simpl.
    destruct (Store.select_since _ (disk s)) as [|r0 rows]; [congruence|].
    rewrite Ho. simpl. rewrite He, Hl. repeat split.
Qed.

(** X5: a fault while the rows are written comes too late for the file:
    [open(..., "w")] has emptied it, so it is left with the part written so
    far, not with what it held; the error is logged and the export returns
    normally. *)
Theorem export_write_fault_leaves_partial_file (i : ExportIn) (s : State)
    (k : nat) (e : exn) :
  ex_mkdir i = None -> export_db_fault i = None -> ex_open i = None ->
  export_rows i s <> [] ->
  ex_write i = Some (k, e) -> is_Exception e = true ->
  al_io (ex_alert_except i) = None ->
  let s' := snd (export_last_week i s) in
  fst (export_last_week i s) = Ok tt /\
  csv_last_week s' =
    Some (firstn k (csv_header :: map csv_of_reading (export_rows i s))) /\
  alerts s' =
    (alerts s ++
     [(isoformat_seconds (al_now (ex_alert_except i)),
       ("[CSV WEEKLY ERROR] " ++ str_exn e)%string)])%list.
Proof.
  intros Hm Hf Ho Hr Hw He Hl. cbv zeta.
  unfold export_db_fault, export_rows in *.
  unfold export_last_week, write_csv, log_alert, try_except, call, bind.
  rewrite Hm. simpl.
  destruct (ex_connect i) as [e1|]; [discriminate|]. simpl.
  destruct (ex_query i) as [e2|]; [discriminate|]. simpl.
  rewrite Hf. simpl.
  destruct (Store.select_since _ (disk s)) as [|r0 rows]; [congruence|].
  rewrite Ho, Hw. simpl. rewrite He, Hl. repeat split.
Qed.

(** X6: what the export does not catch.  A failure to create the export
    directory (line 89, before the [try]) leaves the export at once, and an
    interrupt during the database calls passes through [except Exception];
    in both cases nothing is logged and the file is untouched. *)
Theorem export_uncaught (i : ExportIn) (s : State) :
  (forall e, ex_mkdir i = Some e -> export_last_week i s = (Raise e, s)) /\
  (ex_mkdir i = None -> export_db_fault i = Some KeyboardInterrupt ->
   fst (export_last_week i s) = Raise KeyboardInterrupt /\
   alerts (snd (export_last_week i s)) = alerts s /\
   csv_last_week (snd (export_last_week i s)) = csv_last_week s).
Proof.
  split.
  - intros e Hm. unfold export_last_week, call, bind. rewrite Hm. reflexivity.
  - intros Hm Hf. unfold export_db_fault in Hf.
    unfold export_last_week, write_csv, log_alert, try_except, call, bind.
    rewrite Hm. simpl.
    destruct (ex_connect i) as [e1|]; simpl.
    { inversion Hf; subst e1. repeat split. }
    destruct (ex_query i) as [e2|]; simpl.
    { inversion Hf; subst e2. repeat split. }
    rewrite Hf. simpl. repeat split.
Qed.

(** ** What the push leaves alone *)




(** ** Whole runs *)

(** A relation that every iteration, the handler and the startup code keep
    holds between the first and the last state of a run. *)
Section RunStable.
Variable R : State -> State -> Prop.
Hypothesis R_refl : forall s, R s s.
Hypothesis R_trans : forall a b c, R a b -> R b c -> R a c.
Hypothesis R_tick : forall i, stable R (tick i).
Hypothesis R_shutdown : forall sd, stable R (shutdown sd).

Lemma loop_stable ticks sd : forall s, R s (final_state (loop ticks sd s)).
Proof.
  induction ticks as [|i rest IH]; intros s; simpl; [apply R_refl|].
  pose proof (R_tick i s) as Ht.
  destruct (tick i s) as [[u|e] s1]; simpl in *.
  - eapply R_trans; [exact Ht | apply IH].
  - destruct e; simpl; try exact Ht.
    pose proof (R_shutdown sd s1) as Hs.
    destruct (shutdown sd s1) as [[u|e] s2]; simpl in *;
      eapply R_trans; eassumption.
Qed.

Hypothesis R_startup : forall su, stable R (startup su).

Lemma main_stable su ticks sd s0 :
  R s0 (final_state (main su ticks sd s0)).
Proof.
  unfold main. pose proof (R_startup su s0) as H0.
  destruct (startup su s0) as [[u|e] s1]; simpl in *; [|exact H0].
  eapply R_trans; [exact H0 | apply loop_stable].
Qed.

End RunStable.

Lemma tick_logs p :
  (forall x, p x = true) -> forall i, stable (logs p) (tick i).
Proof.
  intros Hp i.
  unfold tick, sample_block, flush_block, purge_block, sync_block,
    purge_old_data, push_git, export_last_week, is_online, commit, emit.
  repeat first
    [ logs_step
    | apply stable_modify; intros ?; eexists [_]; simpl;
      rewrite Hp; split; reflexivity ].
Qed.

Lemma shutdown_logs p :
  (forall x, p x = true) -> forall sd, stable (logs p) (shutdown sd).
Proof.
  intros Hp sd. unfold shutdown, commit, emit.
  repeat first
    [ logs_step
    | apply stable_modify; intros ?; eexists [_]; simpl;
      rewrite Hp; split; reflexivity ].
Qed.

Lemma startup_logs p :
  (forall x, p x = true) -> forall su, stable (logs p) (startup su).
Proof.
  intros Hp su. unfold startup, emit.
  repeat first
    [ logs_step
    | apply stable_modify; intros ?; eexists [_]; simpl;
      rewrite Hp; split; reflexivity ].
Qed.

(** X8: [ALERTS.log] is append-only over a whole run of the script: the
    lines it held at the start are still there, in place, whatever happens
    in between. *)
Theorem alert_log_append_only (su : StartupIn) (ticks : list TickIn)
    (sd : ShutdownIn) (s0 : State) :
  exists lines,
    alerts (final_state (main su ticks sd s0)) = (alerts s0 ++ lines)%list.
Proof.
  destruct (main_stable (logs any_line) (logs_refl _) (logs_trans _)
              (tick_logs any_line (fun _ => eq_refl))
              (shutdown_logs any_line (fun _ => eq_refl))
              (startup_logs any_line (fun _ => eq_refl)) su ticks sd s0)
    as [l [E _]].
  exists l. exact E.
Qed.


Lemma keeps_store_ok_refl s : keeps_store_ok s s.
Proof. intros H. exact H. Qed.

Lemma keeps_store_ok_trans a b c :
  keeps_store_ok a b -> keeps_store_ok b c -> keeps_store_ok a c.
Proof. unfold keeps_store_ok. auto. Qed.

(** A field update that leaves both views alone. *)
Lemma keeps_store_ok_quiet (g : State -> State) :
  (forall s, view (g s) = view s) -> (forall s, disk (g s) = disk s) ->
  stable keeps_store_ok (modify g).
Proof.
  intros Hv Hd s [V D]. split; simpl; rewrite ?Hv, ?Hd; assumption.
Qed.

Lemma keeps_store_ok_insert rows :
  stable keeps_store_ok
    (modify (fun s => set_view (Store.executemany_insert (view s) rows) s)).
Proof.
  intros s [V D]. split; simpl; [|exact D].
  apply StoreFacts.wf_executemany_insert, V.
Qed.

Lemma keeps_store_ok_delete c :
  stable keeps_store_ok
    (modify (fun s => set_view (Store.delete_before c (view s)) s)).
Proof.
  intros s [V D]. split; simpl; [|exact D].
  apply StoreFacts.wf_delete_before, V.
Qed.

Lemma keeps_store_ok_commit :
  stable keeps_store_ok (modify (fun s => set_disk (view s) s)).
Proof. intros s [V D]. split; simpl; exact V. Qed.

Lemma keeps_store_ok_rollback :
  stable keeps_store_ok (modify (fun s => set_view (disk s) s)).
Proof. intros s [V D]. split; simpl; exact D. Qed.

Ltac store_step :=
  first
    [ apply stable_bind; [apply keeps_store_ok_trans | | intros ? ]
    | apply stable_try_except; [apply keeps_store_ok_trans | | intros ? ]
    | apply stable_ret; apply keeps_store_ok_refl
    | apply stable_raise; apply keeps_store_ok_refl
    | apply stable_get; apply keeps_store_ok_refl
    | apply stable_call; apply keeps_store_ok_refl
    | apply stable_lift; apply keeps_store_ok_refl
    | apply keeps_store_ok_insert
    | apply keeps_store_ok_delete
    | apply keeps_store_ok_commit
    | apply keeps_store_ok_rollback
    | apply keeps_store_ok_quiet; reflexivity
    | match goal with
      | |- stable _ (match ?x with _ => _ end) => destruct x
      end
    | progress unfold executemany, write_csv, log_alert, emit ].

Lemma tick_keeps_store_ok i : stable keeps_store_ok (tick i).
Proof.
  unfold tick, sample_block, flush_block, purge_block, sync_block,
    purge_old_data, push_git, export_last_week, is_online, commit.
  repeat store_step.
Qed.

Lemma shutdown_keeps_store_ok sd : stable keeps_store_ok (shutdown sd).
Proof. unfold shutdown, commit. repeat store_step. Qed.

Lemma startup_keeps_store_ok su : stable keeps_store_ok (startup su).
Proof. unfold startup. repeat store_step. Qed.

(** X9: started on a database whose rows have distinct timestamps, the
    script keeps it so throughout a run: neither the committed table nor the
    connection's view ever holds two rows under one timestamp. *)
Theorem store_stays_well_formed (su : StartupIn) (ticks : list TickIn)
    (sd : ShutdownIn) (db : Store.table) (log : list alert_line)
    (csv : option (list csv_row)) :
  Store.wf db ->
  Store.wf (disk (final_state (main su ticks sd (boot db log csv)))) /\
  Store.wf (view (final_state (main su ticks sd (boot db log csv)))).
Proof.
  intros Hdb.
  destruct (main_stable keeps_store_ok keeps_store_ok_refl
              keeps_store_ok_trans tick_keeps_store_ok
              shutdown_keeps_store_ok startup_keeps_store_ok
              su ticks sd (boot db log csv)) as [V D].
  - split; exact Hdb.
  - split; assumption.
Qed.

Lemma store_stays_well_formed_witness :
  Store.wf
    (disk (final_state
             (main demo_startup demo_dst_night demo_shutdown
                   (boot [demo_old; demo_recent] [] None)))).
Proof.
  destruct (store_stays_well_formed demo_startup demo_dst_night demo_shutdown
              [demo_old; demo_recent] [] None) as [H _].
  - unfold Store.wf. simpl. repeat constructor; simpl; intuition discriminate.
  - exact H.
Defined.


(** ** Completed iterations *)

(** An iteration that returns went through its four blocks and the sleep. *)
Lemma tick_completed i s s' :
  tick i s = (Ok tt, s') ->
  exists s1 s2 s3,
    sample_block i s = (Ok tt, s1) /\ flush_block i s1 = (Ok tt, s2) /\
    purge_block i s2 = (Ok tt, s3) /\ sync_block i s3 = (Ok tt, s') /\
    ti_sleep i = None.
Proof.
  unfold tick. unfold bind at 1.
  destruct (sample_block i s) as [[[]|e1] s1] eqn:E1; [|discriminate].
  unfold bind at 1.
  destruct (flush_block i s1) as [[[]|e2] s2] eqn:E2; [|discriminate].
  unfold bind at 1.
  destruct (purge_block i s2) as [[[]|e3] s3] eqn:E3; [|discriminate].
  unfold bind at 1.
  destruct (sync_block i s3) as [[[]|e4] s4] eqn:E4; [|discriminate].
  unfold call. destruct (ti_sleep i); [discriminate|].
  intros E. inversion E; subst. exists s1, s2, s3. repeat split; assumption.
Qed.

Lemma sample_block_data i :
  stable (frame (fun s => (disk s, view s, last_flush s)) (is_not (Fire Flush)))
         (sample_block i).
Proof. unfold sample_block. frame_tac. Qed.

Lemma sync_block_data i :
  stable (frame (fun s => (disk s, view s, buffer s, last_log s, last_flush s))
                (is_not (Fire Flush)))
         (sync_block i).
Proof. unfold sync_block, push_git. frame_tac. Qed.

Lemma purge_block_vars i :
  stable (frame (fun s => (buffer s, last_log s, last_flush s))
                (is_not (Fire Flush)))
         (purge_block i).
Proof. unfold purge_block, purge_old_data. frame_tac. Qed.

(** A flush block that returns has cleared the batch if it was due, and
    left nothing uncommitted if nothing was. *)
Lemma flush_block_completed i s s' :
  flush_block i s = (Ok tt, s') ->
  last_log s' = last_log s /\
  (view s = disk s -> view s' = disk s') /\
  (if flush_due (buffer s) (ti_mono_flush i) (last_flush s)
   then buffer s' = [] /\ last_flush s' = ti_mono_flush_set i
   else s' = s).
Proof.
  unfold flush_block. rewrite bind_run. simpl.
  destruct (flush_due (buffer s) (ti_mono_flush i) (last_flush s)).
  - unfold executemany, commit, call, bind.
    destruct (ti_insert i) as [[k e]|]; simpl; [discriminate|].
    destruct (ti_commit i) as [e|]; simpl; [discriminate|].
    intros E. inversion E; subst. simpl. repeat split.
  - intros E. inversion E; subst. repeat split. tauto.
Qed.

Lemma purge_block_completed i s s' :
  purge_block i s = (Ok tt, s') -> view s = disk s -> view s' = disk s'.
Proof.
  unfold purge_block. rewrite bind_run. simpl.
  destruct (purge_due (last_purge_day s) (ti_now i)).
  - unfold purge_old_data, commit, log_alert, call, bind.
    destruct (pu_delete (ti_purge i)) as [e|]; simpl; [discriminate|].
    destruct (pu_commit (ti_purge i)) as [e|]; simpl; [discriminate|].
    destruct (al_io (pu_alert (ti_purge i))) as [e|]; simpl; [discriminate|].
    intros E. inversion E; subst. reflexivity.
  - intros E. inversion E; subst. tauto.
Qed.

(** X10: an iteration that completes leaves no transaction open: if the
    connection had nothing uncommitted before it, it has nothing uncommitted
    after it, so what the export reads is what the logger wrote. *)
Theorem tick_commits_what_it_writes (i : TickIn) (s s' : State) :
  tick i s = (Ok tt, s') -> view s = disk s -> view s' = disk s'.
Proof.
  intros T H0.
  destruct (tick_completed i s s' T) as (s1 & s2 & s3 & E1 & E2 & E3 & E4 & _).
  pose proof (sample_block_data i s) as [K1 _]. rewrite E1 in K1.
  simpl in K1. inversion K1 as [[D1 V1 F1]].
  destruct (flush_block_completed i s1 s2 E2) as (_ & C2 & _).
  pose proof (purge_block_completed i s2 s3 E3) as C3.
  pose proof (sync_block_data i s3) as [K4 _]. rewrite E4 in K4.
  simpl in K4. inversion K4 as [[D4 V4 B4 L4 F4]].
  rewrite V4, D4. apply C3, C2. congruence.
Qed.

(** X11: after an iteration that completes the batch holds fewer than
    DB_BATCH_SIZE readings, whatever it held before: a batch that reaches
    the size is flushed by the same iteration. *)
Theorem batch_stays_below_size (i : TickIn) (s s' : State) :
  tick i s = (Ok tt, s') ->
  (List.length (buffer s') < DB_BATCH_SIZE)%nat.
Proof.
  intros T.
  destruct (tick_completed i s s' T) as (s1 & s2 & s3 & E1 & E2 & E3 & E4 & _).
  destruct (flush_block_completed i s1 s2 E2) as (_ & _ & C2).
  pose proof (purge_block_vars i s2) as [K3 _]. rewrite E3 in K3.
  simpl in K3. inversion K3 as [[B3 L3 F3]].
  pose proof (sync_block_data i s3) as [K4 _]. rewrite E4 in K4.
  simpl in K4. inversion K4 as [[D4 V4 B4 L4 F4]].
  rewrite B4, B3.
  unfold flush_due in C2.
  destruct (DB_BATCH_SIZE <=? List.length (buffer s1))%nat eqn:Sz.
  - simpl in C2. destruct C2 as [-> _]. unfold DB_BATCH_SIZE. simpl. lia.
  - apply Nat.leb_gt in Sz.
    destruct (elapsed_at_least (ti_mono_flush i) (last_flush s1)
                               DB_FLUSH_INTERVAL); simpl in C2.
    + destruct C2 as [-> _]. unfold DB_BATCH_SIZE. simpl. lia.
    + subst s2. exact Sz.
Qed.

Lemma tick_commits_what_it_writes_witness :
  view (snd (tick (demo_tick demo_now 60 (Ok 2150) None None) demo_state)) =
  disk (snd (tick (demo_tick demo_now 60 (Ok 2150) None None) demo_state)).
Proof.
  apply (tick_commits_what_it_writes
           (demo_tick demo_now 60 (Ok 2150) None None) demo_state).
  - vm_compute. reflexivity.
  - reflexivity.
Defined.

Lemma batch_stays_below_size_witness :
  Nat.lt
    (List.length
       (buffer (snd (tick (demo_tick demo_now 60 (Ok 2150) None None)
                          demo_state))))
    DB_BATCH_SIZE.
Proof.
  apply (batch_stays_below_size
           (demo_tick demo_now 60 (Ok 2150) None None) demo_state).
  vm_compute. reflexivity.
Defined.


(** ** The timers of the loop *)

Lemma after_sample_last_log i :
  stable (frame last_log (is_not (Fire Sample)))
         (flush_block i ;; purge_block i ;; sync_block i ;; call (ti_sleep i)).
Proof.
  unfold flush_block, purge_block, sync_block, purge_old_data, push_git.
  frame_tac.
Qed.

Lemma sample_block_last_log i s :
  last_log (snd (sample_block i s)) =
  if sample_due (ti_mono_log i) (last_log s)
  then ti_mono_log_set i else last_log s.
Proof.
  unfold sample_block. rewrite bind_run. simpl.
  destruct (sample_due (ti_mono_log i) (last_log s)); [|reflexivity].
  unfold bind, lift.
  destruct (ti_temperature i); simpl; [|reflexivity].
  destruct (ti_pressure i); simpl; [|reflexivity].
  destruct (ti_humidity i); reflexivity.
Qed.

Lemma flush_block_last_log i :
  stable (frame last_log (is_not (Fire Sample))) (flush_block i).
Proof. unfold flush_block. frame_tac. Qed.

Lemma purge_block_timers i :
  stable (frame (fun s => (last_log s, last_flush s)) (is_not (Fire Sample)))
         (purge_block i).
Proof. unfold purge_block, purge_old_data. frame_tac. Qed.

Lemma sync_block_timers i :
  stable (frame (fun s => (last_log s, last_flush s)) (is_not (Fire Sample)))
         (sync_block i).
Proof. unfold sync_block, push_git. frame_tac. Qed.

(** X12: the timers are independent.  Whatever happens in an iteration, the
    sample timer ends at the clock read of line 189 if the sample was due
    and is otherwise unchanged: it moves before the sensor is read, also
    when the read then fails, and no flush, purge or push touches it; the
    sample, purge and sync blocks in turn never touch the flush timer. *)
Theorem timers_are_independent (i : TickIn) (s : State) :
  last_log (snd (tick i s)) =
    (if sample_due (ti_mono_log i) (last_log s)
     then ti_mono_log_set i else last_log s) /\
  last_log (snd (flush_block i s)) = last_log s /\
  last_log (snd (purge_block i s)) = last_log s /\
  last_log (snd (sync_block i s)) = last_log s /\
  last_flush (snd (sample_block i s)) = last_flush s /\
  last_flush (snd (purge_block i s)) = last_flush s /\
  last_flush (snd (sync_block i s)) = last_flush s.
Proof.
  split.
  - rewrite <- sample_block_last_log. unfold tick. rewrite bind_run.
    pose proof (after_sample_last_log i) as A. unfold stable in A.
    destruct (sample_block i s) as [[[]|e] s1]; simpl; [|reflexivity].
    apply (A s1).
  - pose proof (flush_block_last_log i s) as [F _].
    pose proof (purge_block_timers i s) as [P _].
    pose proof (sync_block_timers i s) as [Y _].
    pose proof (sample_block_data i s) as [D _].
    injection P as P1 P2. injection Y as Y1 Y2. injection D as D1 D2 D3.
    repeat split; assumption.
Qed.

(** ** An interrupted flush *)

Lemma executemany_insert_app t a b :
  Store.executemany_insert t (a ++ b)%list =
  Store.executemany_insert (Store.executemany_insert t a) b.
Proof. unfold Store.executemany_insert. apply fold_left_app. Qed.

(** Rows whose keys are all taken change nothing. *)
Lemma executemany_insert_absorbed rows :
  forall t,
    (forall r, In r rows -> Store.has_key (timestamp r) t = true) ->
    Store.executemany_insert t rows = t.
Proof.
  induction rows as [|x rows IH]; intros t H; [reflexivity|].
  change (Store.executemany_insert t (x :: rows))
    with (Store.executemany_insert (Store.insert_or_ignore t x) rows).
  rewrite (StoreFacts.insert_or_ignore_present t x) by (apply H; simpl; auto).
  apply IH. intros r Hr. apply H. simpl. auto.
Qed.

(** Inserting a batch again after a part of it went in gives what a single
    insert of the batch gives. *)
Lemma executemany_insert_replay t rows k :
  Store.executemany_insert (Store.executemany_insert t (firstn k rows)) rows =
  Store.executemany_insert t rows.
Proof.
  rewrite <- (firstn_skipn k rows) at 2 3.
  rewrite !executemany_insert_app. f_equal.
  apply executemany_insert_absorbed. intros r Hr.
  apply StoreFacts.executemany_insert_has_key, Hr.
Qed.

(** X13: an interrupt in the middle of a flush loses nothing and doubles
    nothing.  If the flush is cut off by [KeyboardInterrupt] after [k] rows
    of the batch, or after all rows but before the commit, the handler
    inserts the whole batch again and commits, and the committed table is
    the one an undisturbed flush would have produced. *)
Theorem interrupted_flush_recovers (i : TickIn) (sd : ShutdownIn) (s : State)
    (k : nat) :
  flush_due (buffer s) (ti_mono_flush i) (last_flush s) = true ->
  buffer s <> [] ->
  ti_insert i = Some (k, KeyboardInterrupt) \/
  (ti_insert i = None /\ ti_commit i = Some KeyboardInterrupt) ->
  sd_insert sd = None -> sd_commit sd = None -> sd_close sd = None ->
  al_io (sd_alert sd) = None ->
  let s1 := snd (flush_block i s) in
  let s2 := snd (shutdown sd s1) in
  fst (flush_block i s) = Raise KeyboardInterrupt /\
  buffer s1 = buffer s /\
  fst (shutdown sd s1) = Ok tt /\
  disk s2 = Store.executemany_insert (view s) (buffer s) /\
  view s2 = disk s2.
Proof.
  intros Due Hb Hcut Hi Hc Hx Ha. cbv zeta.
  unfold flush_block. rewrite bind_run. simpl. rewrite Due.
  unfold shutdown, executemany, commit, log_alert, call, bind.
  rewrite Hi, Hc, Hx, Ha.
  destruct Hcut as [Hk | [Hk Hm]]; rewrite Hk; simpl; [|rewrite Hm; simpl];
    destruct (buffer s) as [|r0 rows] eqn:B; try congruence; simpl;
    (split; [reflexivity|]); (split; [reflexivity|]);
    (split; [reflexivity|]); (split; [|reflexivity]).
  - apply (executemany_insert_replay (view s) (r0 :: rows) k).
  - apply (executemany_insert_absorbed (r0 :: rows)). intros r Hr.
    apply (StoreFacts.executemany_insert_has_key (r0 :: rows)), Hr.
Qed.


(** ** Startup (lines 35-67, 173-179) *)


(** ** How a run ends *)

Lemma tick_logs_no_stop i :
  stable (logs (fun l => negb (notes_stop l))) (tick i).
Proof.
  unfold tick, sample_block, flush_block, purge_block, sync_block,
    purge_old_data, push_git, export_last_week, is_online, commit, emit.
  repeat logs_step.
Qed.

Lemma count_stops_app a b :
  count_stops (a ++ b)%list = (count_stops a + count_stops b)%nat.
Proof. unfold count_stops. rewrite filter_app. apply length_app. Qed.

Lemma count_stops_none l :
  forallb (fun l => negb (notes_stop l)) l = true -> count_stops l = 0%nat.
Proof.
  unfold count_stops. induction l as [|x l IH]; simpl; [reflexivity|].
  intros H. apply andb_prop in H as [H1 H2].
  apply negb_true_iff in H1. rewrite H1. auto.
Qed.

Lemma tick_count_stops i s :
  count_stops (alerts (snd (tick i s))) = count_stops (alerts s).
Proof.
  destruct (tick_logs_no_stop i s) as [l [E F]].
  rewrite E, count_stops_app, (count_stops_none _ F). lia.
Qed.

Lemma shutdown_returns sd s s' :
  shutdown sd s = (Ok tt, s') ->
  alerts s' =
    (alerts s ++ [(isoformat_seconds (al_now (sd_alert sd)), stop_message)])%list /\
  view s' = disk s'.
Proof.
  unfold shutdown, executemany, commit, log_alert, call, bind, get.
  destruct (buffer s) as [|r0 rows]; simpl.
  - destruct (sd_close sd); simpl; [discriminate|].
    destruct (al_io (sd_alert sd)); simpl; [discriminate|].
    intros E. inversion E; subst. split; reflexivity.
  - destruct (sd_insert sd) as [[k e]|]; simpl; [discriminate|].
    destruct (sd_commit sd); simpl; [discriminate|].
    destruct (sd_close sd); simpl; [discriminate|].
    destruct (al_io (sd_alert sd)); simpl; [discriminate|].
    intros E. inversion E; subst. split; reflexivity.
Qed.

(** X15: the line "Logger stopped cleanly" tells the truth.  A run that
    ends through the handler has it as the last line of the log, written
    once, with nothing left uncommitted; as long as the loop is running no
    such line is written, and an exception other than an interrupt ends the
    run at the failing iteration without the handler. *)
Theorem clean_stop_is_logged (ticks : list TickIn) (sd : ShutdownIn)
    (s : State) :
  match loop ticks sd s with
  | Running s' => count_stops (alerts s') = count_stops (alerts s)
  | Exited s' =>
      count_stops (alerts s') = S (count_stops (alerts s)) /\
      (exists lines,
         alerts s' =
           (lines ++
            [(isoformat_seconds (al_now (sd_alert sd)), stop_message)])%list) /\
      view s' = disk s'
  | Crashed _ _ => True
  end /\
  (forall i rest e s1,
     tick i s = (Raise e, s1) -> is_KeyboardInterrupt e = false ->
     loop (i :: rest) sd s = Crashed e s1 /\
     count_stops (alerts s1) = count_stops (alerts s) /\
     closed MainConn s1 = closed MainConn s).
Proof.
  split.
  - revert s. induction ticks as [|i rest IH]; intros s; simpl; [reflexivity|].
    pose proof (tick_count_stops i s) as C.
    destruct (tick i s) as [[u|e] s1]; simpl in C.
    + specialize (IH s1). rewrite <- C.
      destruct (loop rest sd s1); exact IH.
    + destruct e; try exact I.
      destruct (shutdown sd s1) as [[[]|e] s2] eqn:S; [|exact I].
      destruct (shutdown_returns sd s1 s2 S) as [A V].
      split; [|split; [exists (alerts s1); exact A | exact V]].
      rewrite A, count_stops_app, C. unfold count_stops at 2. simpl. lia.
  - intros i rest e s1 T K.
    pose proof (tick_count_stops i s) as C.
    destruct (tick_not_main_conn i s) as [_ Ad].
    apply adds_not_main_conn in Ad as [_ Cl].
    simpl. rewrite T in *. simpl in *.
    destruct e; [discriminate | | | |]; repeat split; assumption.
Qed.


(** ** Purging again, and purging nothing *)

Lemma delete_before_nothing c t :
  (forall r, In r t -> String.ltb (timestamp r) c = false) ->
  Store.delete_before c t = t.
Proof.
  unfold Store.delete_before. induction t as [|x t IH]; intros H; simpl;
    [reflexivity|].
  rewrite (H x) by (simpl; auto). simpl. f_equal.
  apply IH. intros r Hr. apply H. simpl. auto.
Qed.

Lemma delete_before_twice c t :
  Store.delete_before c (Store.delete_before c t) = Store.delete_before c t.
Proof.
  apply delete_before_nothing. intros r Hr.
  apply StoreFacts.delete_before_In in Hr. tauto.
Qed.

(** X16: a purge that finds no row older than the cutoff, an empty table
    included, is not an error and leaves the table exactly as it was, rows
    and order; and a purge repeated at the same instant deletes nothing
    more. *)
Theorem purge_of_nothing (i : PurgeIn) (s : State) :
  pu_delete i = None -> pu_commit i = None -> al_io (pu_alert i) = None ->
  let cutoff := isoformat (minus_days (pu_now i) RETENTION_DAYS) in
  let s' := snd (purge_old_data i s) in
  fst (purge_old_data i s) = Ok tt /\
  ((forall r, In r (view s) -> String.ltb (timestamp r) cutoff = false) ->
   disk s' = view s) /\
  disk (snd (purge_old_data i s')) = disk s' /\
  alerts s' =
    (alerts s ++
     [(isoformat_seconds (al_now (pu_alert i)), "[DB] Old data purged")])%list.
Proof.
  intros Hd Hc Ha. cbv zeta.
  destruct (purge_old_data_disk i s Hd Hc) as [D V].
  destruct (purge_old_data_disk i (snd (purge_old_data i s)) Hd Hc) as [D2 _].
  rewrite D2, V, D, delete_before_twice.
  split; [|split; [apply delete_before_nothing | split; [reflexivity|]]];
    unfold purge_old_data, commit, log_alert, call, bind;
    rewrite Hd, Hc, Ha; reflexivity.
Qed.

(** ** Keys of the readings *)

Lemma lex_eq a b : lex a b = Eq <-> a = Eq /\ b = Eq.
Proof. destruct a; simpl; split; try tauto; intros H; try discriminate; destruct H; discriminate. Qed.

Lemma compare_datetime_eq a b : compare_datetime a b = Eq <-> a = b.
Proof.
  unfold compare_datetime. rewrite !lex_eq, !Z.compare_eq_iff.
  destruct a, b; simpl. split.
  - intros (-> & -> & -> & -> & -> & -> & ->). reflexivity.
  - intros E. inversion E. tauto.
Qed.

Lemma string_compare_refl (s : string) : String.compare s s = Eq.
Proof.
  induction s as [|c s IH]; [reflexivity|].
  change (String.compare (String c s) (String c s))
    with (match Ascii.compare c c with
          | Eq => String.compare s s
          | ne => ne
          end).
  unfold Ascii.compare. rewrite N.compare_refl. exact IH.
Qed.

(** X17: the key of a reading orders and separates like the second it was
    taken in.  For two wall-clock times, the second-precision stamps are
    equal exactly when the times agree down to the second, and one stamp is
    below the other in the text order of the table exactly when its time is
    earlier: samples of different seconds never collide on the key. *)
Theorem timestamps_order_like_instants (a b : datetime) :
  datetime_ok a -> datetime_ok b ->
  (isoformat_seconds a = isoformat_seconds b <->
   truncate_seconds a = truncate_seconds b) /\
  (String.ltb (isoformat_seconds a) (isoformat_seconds b) = true <->
   compare_datetime (truncate_seconds a) (truncate_seconds b) = Lt).
Proof.
  intros Ha Hb.
  pose proof (isoformat_compare a (truncate_seconds b) Ha
                (truncate_seconds_ok b Hb)) as C.
  rewrite isoformat_truncated in C.
  split.
  - rewrite <- compare_datetime_eq, <- C. split.
    + intros E. rewrite E. apply string_compare_refl.
    + apply String.compare_eq_iff.
  - unfold String.ltb. rewrite C.
    destruct (compare_datetime (truncate_seconds a) (truncate_seconds b));
      split; congruence.
Qed.


(** ** Sampling into a full batch *)

(** X18: the sample that fills the batch is flushed by the same iteration.
    When the sample is due, the sensor answers and the batch reaches
    DB_BATCH_SIZE with the new reading, the flush runs right after the
    append, whatever the flush timer says: the new reading, stamped with the
    time read at the top of the iteration, goes through INSERT OR IGNORE
    with the rest, the result is committed and the batch is empty again.
    If the timestamps of table, batch and new reading are pairwise distinct
    they are all stored, appended in order; a new reading whose timestamp is
    already stored under another row is skipped and is in no row. *)
Theorem full_batch_is_flushed_at_once (i : TickIn) (s : State) (t p h : Z) :
  sample_due (ti_mono_log i) (last_log s) = true ->
  ti_temperature i = Ok t -> ti_pressure i = Ok p -> ti_humidity i = Ok h ->
  (DB_BATCH_SIZE <= S (List.length (buffer s)))%nat ->
  ti_insert i = None -> ti_commit i = None ->
  let r := mkReading (isoformat_seconds (ti_now i)) t (fahrenheit t) p h in
  let s2 := snd ((sample_block i ;; flush_block i) s) in
  fst ((sample_block i ;; flush_block i) s) = Ok tt /\
  buffer s2 = [] /\
  (forall x,
     In x (disk s2) <->
     In x (view s) \/
     (Store.has_key (timestamp x) (view s) = false /\
      first_with_key (buffer s ++ [r])%list x)) /\
  (Store.wf (view s ++ buffer s ++ [r])%list ->
   disk s2 = (view s ++ buffer s ++ [r])%list) /\
  (Store.has_key (timestamp r) (view s) = true -> ~ In r (view s) ->
   ~ In r (disk s2)) /\
  Store.has_key (timestamp r) (disk s2) = true /\
  view s2 = disk s2 /\
  last_log s2 = ti_mono_log_set i /\ last_flush s2 = ti_mono_flush_set i.
Proof.
  intros Due Ht Hp Hh Hn Hi Hc. cbv zeta.
  assert (Hs : sample_block i s =
               (Ok tt,
                set_buffer
                  (buffer s ++
                   [mkReading (isoformat_seconds (ti_now i)) t (fahrenheit t) p h])%list
                  (set_last_log (ti_mono_log_set i)
                     (set_trace (trace s ++ [Fire Sample])%list s)))).
  { unfold sample_block. rewrite bind_run. simpl. rewrite Due.
    unfold bind, lift. simpl. rewrite Ht. simpl. rewrite Hp. simpl.
    rewrite Hh. reflexivity. }
  rewrite bind_run, Hs. unfold flush_block. rewrite bind_run.
  cbn [get fst snd buffer set_buffer set_last_log set_trace last_flush].
  assert (Df : flush_due
                 (buffer s ++
                  [mkReading (isoformat_seconds (ti_now i)) t (fahrenheit t) p h])%list
                 (ti_mono_flush i) (last_flush s) = true).
  { unfold flush_due. apply orb_true_iff. left. apply Nat.leb_le.
    rewrite length_app. simpl. lia. }
  rewrite Df. unfold executemany, commit, call, bind. rewrite Hi, Hc.
  cbn [modify ret emit fst snd buffer last_log last_flush disk view
       set_buffer set_last_log set_last_flush set_view set_disk set_trace].
  split; [reflexivity|]. split; [reflexivity|].
  split; [intros x; apply StoreFacts.executemany_insert_In|].
  split; [apply StoreFacts.executemany_insert_fresh|].
  split.
  { intros Hk Hnew Hin.
    apply StoreFacts.executemany_insert_In in Hin as [Hin | [Hf _]];
      [contradiction | congruence]. }
  split; [|repeat split].
  apply StoreFacts.executemany_insert_has_key. apply in_or_app. simpl. auto.
Qed.

(** ** Rows of the export *)

Lemma sorted_distinct_keys (l : list Reading) :
  NoDup (map timestamp l) ->
  Sorted (fun a b => String.leb (timestamp a) (timestamp b) = true) l ->
  Sorted (fun a b => String.ltb (timestamp a) (timestamp b) = true) l.
Proof.
  induction l as [|a l IH]; intros Hn Hs; [constructor|].
  simpl in Hn. inversion Hn as [|? ? Ha Hl]; subst.
  inversion Hs as [|? ? Hs' Hd]; subst.
  constructor; [apply IH; assumption|].
  destruct l as [|b l]; constructor.
  inversion Hd as [|? ? Hab]; subst.
  unfold String.leb in Hab. unfold String.ltb.
  destruct (String.compare (timestamp a) (timestamp b)) eqn:C;
    [|reflexivity | discriminate].
  apply String.compare_eq_iff in C. exfalso. apply Ha. simpl. auto.
Qed.

(** X19: on a table that respects the primary key the export selects no
    timestamp twice and its rows come strictly ascending, so every data row
    of the file is later than the one above it; it never selects more rows
    than the table holds. *)
Theorem export_rows_strictly_ascending (i : ExportIn) (s : State) :
  Store.wf (disk s) ->
  Sorted (fun a b => String.ltb (timestamp a) (timestamp b) = true)
         (export_rows i s) /\
  NoDup (map timestamp (export_rows i s)) /\
  (List.length (export_rows i s) <= List.length (disk s))%nat.
Proof.
  intros Hwf. unfold export_rows.
  set (c := isoformat_seconds (minus_days (ex_now i) 7)).
  pose proof (select_since_perm c (disk s)) as P.
  assert (Hn : NoDup (map timestamp (Store.select_since c (disk s)))).
  { eapply Permutation_NoDup; [apply Permutation_map, P|].
    apply (StoreFacts.wf_filter _ _ Hwf). }
  split; [apply sorted_distinct_keys; [exact Hn | apply select_since_sorted]|].
  split; [exact Hn|].
  rewrite <- (Permutation_length P). apply filter_length_le.
Qed.


(** ** Whole readings only *)

(** X20: the batch only ever grows by one whole reading.  After the sample
    block the batch is either untouched, also when any of the three sensor
    reads failed, or longer by exactly one reading that carries all three
    values of this iteration and the Fahrenheit value derived from the
    temperature. *)
Theorem no_partial_reading (i : TickIn) (s : State) :
  let s' := snd (sample_block i s) in
  buffer s' = buffer s \/
  exists t p h,
    ti_temperature i = Ok t /\ ti_pressure i = Ok p /\ ti_humidity i = Ok h /\
    sample_due (ti_mono_log i) (last_log s) = true /\
    fst (sample_block i s) = Ok tt /\
    buffer s' =
      (buffer s ++
       [mkReading (isoformat_seconds (ti_now i)) t (fahrenheit t) p h])%list.
Proof.
  cbv zeta. unfold sample_block. rewrite bind_run. simpl.
  destruct (sample_due (ti_mono_log i) (last_log s)); [|left; reflexivity].
  unfold bind, lift.
  destruct (ti_temperature i) as [t|e]; simpl; [|left; reflexivity].
  destruct (ti_pressure i) as [p|e]; simpl; [|left; reflexivity].
  destruct (ti_humidity i) as [h|e]; simpl; [|left; reflexivity].
  right. exists t, p, h. repeat split.
Qed.

(** ** Only the purge deletes *)

Lemma keeps_rows_refl s : keeps_rows s s.
Proof. intros H. repeat split; auto. Qed.

Lemma keeps_rows_trans a b c :
  keeps_rows a b -> keeps_rows b c -> keeps_rows a c.
Proof.
  intros H1 H2 Ha. destruct (H1 Ha) as (Hb & D1 & V1).
  destruct (H2 Hb) as (Hc & D2 & V2). repeat split; auto.
Qed.

Lemma keeps_rows_quiet (g : State -> State) :
  (forall s, view (g s) = view s) -> (forall s, disk (g s) = disk s) ->
  stable keeps_rows (modify g).
Proof.
  intros Hv Hd s H. unfold committed_in_view. simpl. rewrite Hv, Hd.
  repeat split; auto.
Qed.

Lemma keeps_rows_insert rows :
  stable keeps_rows
    (modify (fun s => set_view (Store.executemany_insert (view s) rows) s)).
Proof.
  intros s H. unfold committed_in_view. simpl. repeat split; auto.
  - intros r Hr. apply StoreFacts.executemany_insert_incl, H, Hr.
  - intros r Hr. apply StoreFacts.executemany_insert_incl, Hr.
Qed.

Lemma keeps_rows_commit :
  stable keeps_rows (modify (fun s => set_disk (view s) s)).
Proof. intros s H. unfold committed_in_view. simpl. repeat split; auto. Qed.

Ltac rows_step :=
  first
    [ apply stable_bind; [apply keeps_rows_trans | | intros ? ]
    | apply stable_try_except; [apply keeps_rows_trans | | intros ? ]
    | apply stable_ret; apply keeps_rows_refl
    | apply stable_raise; apply keeps_rows_refl
    | apply stable_get; apply keeps_rows_refl
    | apply stable_call; apply keeps_rows_refl
    | apply stable_lift; apply keeps_rows_refl
    | apply keeps_rows_insert
    | apply keeps_rows_commit
    | apply keeps_rows_quiet; reflexivity
    | match goal with
      | |- stable _ (match ?x with _ => _ end) => destruct x
      end
    | progress unfold executemany, write_csv, log_alert, emit ].

Lemma sample_flush_keep_rows i :
  stable keeps_rows (sample_block i ;; flush_block i).
Proof. unfold sample_block, flush_block, commit. repeat rows_step. Qed.

Lemma sync_sleep_keep_rows i :
  stable keeps_rows (sync_block i ;; call (ti_sleep i)).
Proof.
  unfold sync_block, push_git, export_last_week, is_online.
  repeat rows_step.
Qed.

(** X21: only the purge deletes.  In an iteration in which the purge is not
    due, every row that was committed before is committed after, however
    the iteration ends: sampling, flushing, export and push never remove or
    replace a row. *)
Theorem only_the_purge_deletes (i : TickIn) (s : State) :
  purge_due (last_purge_day s) (ti_now i) = false ->
  committed_in_view s ->
  forall r, In r (disk s) -> In r (disk (snd (tick i s))).
Proof.
  intros Hp H0.
  pose proof (sample_flush_keep_rows i s) as H1.
  pose proof (before_purge_frame i s) as [K _].
  assert (T : snd (tick i s) =
              match (sample_block i ;; flush_block i) s with
              | (Ok _, s2) => snd ((sync_block i ;; call (ti_sleep i)) s2)
              | (Raise _, s2) => s2
              end).
  { revert K. unfold tick, bind.
    destruct (sample_block i s) as [[[]|e1] s1]; [|reflexivity].
    destruct (flush_block i s1) as [[[]|e2] s2]; [|reflexivity].
    cbn [snd]. intros L.
    unfold purge_block, bind, get. cbn [fst snd]. rewrite L, Hp.
    reflexivity. }
  rewrite T.
  destruct ((sample_block i ;; flush_block i) s) as [[u|e] s2]; simpl in *.
  - destruct (H1 H0) as (H2 & D2 & _).
    destruct (sync_sleep_keep_rows i s2 H2) as (_ & D3 & _). auto.
  - destruct (H1 H0) as (_ & D2 & _). exact D2.
Qed.

(** ** Exporting again *)

(** X22: the export is repeatable.  Run again with the same clock and with
    no failing call, it reads the same rows and leaves the same file: the
    file is a function of the committed rows and the cutoff, not of what it
    held or of how often it was written. *)
Theorem export_twice_same_file (i : ExportIn) (s : State) :
  ex_mkdir i = None -> ex_connect i = None -> ex_query i = None ->
  ex_close i = None -> ex_open i = None -> ex_write i = None ->
  al_io (ex_alert i) = None ->
  let s1 := snd (export_last_week i s) in
  let s2 := snd (export_last_week i s1) in
  export_rows i s1 = export_rows i s /\
  csv_last_week s2 = csv_last_week s1 /\
  disk s2 = disk s.
Proof.
  intros H1 H2 H3 H4 H5 H6 H7. cbv zeta. unfold export_rows.
  assert (E : forall s0,
            disk (snd (export_last_week i s0)) = disk s0 /\
            csv_last_week (snd (export_last_week i s0)) =
              match Store.select_since
                      (isoformat_seconds (minus_days (ex_now i) 7)) (disk s0)
              with
              | [] => csv_last_week s0
              | r0 :: rows =>
                  Some (csv_header :: map csv_of_reading (r0 :: rows))
              end).
  { intros s0.
    unfold export_last_week, write_csv, log_alert, try_except, call, bind.
    rewrite H1, H2, H3, H4, H5, H6, H7. simpl.
    destruct (Store.select_since _ (disk s0)); simpl; split; reflexivity. }
  destruct (E s) as [D1 C1].
  destruct (E (snd (export_last_week i s))) as [D2 C2].
  rewrite D1 in *. split; [reflexivity|]. split; [|exact D2].
  rewrite C2, C1.
  destruct (Store.select_since _ (disk s)); reflexivity.
Qed.


(** ** Faults and repeated runs on the concrete machine *)

Lemma demo_export_returns :
  export_last_week (demo_export demo_now) demo_state =
  (Ok tt, snd (export_last_week (demo_export demo_now) demo_state)).
Proof. vm_compute. reflexivity. Defined.

Lemma push_git_online_pushes_witness :
  fst (push_git (demo_push_git None None None) demo_state) = Ok tt.
Proof.
  destruct (push_git_online_pushes (demo_push_git None None None) demo_state
              _ demo_export_returns eq_refl eq_refl eq_refl eq_refl eq_refl)
    as [H _].
  exact H.
Defined.

Lemma push_git_failed_step_witness :
  fst (push_git
         (demo_push_git None (Some (CalledProcessError "nothing to commit")) None)
         demo_state) = Ok tt.
Proof.
  destruct (push_git_failed_step
              (demo_push_git None (Some (CalledProcessError "nothing to commit"))
                             None)
              demo_state _ "nothing to commit" demo_export_returns
              eq_refl eq_refl eq_refl) as [H _].
  exact H.
Defined.

Lemma push_git_fault_escapes_witness :
  fst (push_git (demo_push_git (Some (OSError "git: not found")) None None)
                demo_state) = Raise (OSError "git: not found").
Proof.
  destruct (push_git_fault_escapes
              (demo_push_git (Some (OSError "git: not found")) None None)
              demo_state _ (OSError "git: not found") demo_export_returns
              eq_refl eq_refl eq_refl) as [H _].
  exact H.
Defined.

Lemma export_fault_is_logged_witness :
  fst (export_last_week
         (demo_export_with (Some (SqliteError "database is locked")) None None)
         demo_state) = Ok tt.
Proof.
  destruct (export_fault_is_logged
              (demo_export_with (Some (SqliteError "database is locked")) None None)
              demo_state (SqliteError "database is locked")
              eq_refl eq_refl eq_refl (or_introl eq_refl)) as [H _].
  exact H.
Defined.

Lemma export_write_fault_leaves_partial_file_witness :
  csv_last_week
    (snd (export_last_week
            (demo_export_with None None (Some (1%nat, OSError "disk full")))
            demo_state)) = Some [csv_header].
Proof.
  destruct (export_write_fault_leaves_partial_file
              (demo_export_with None None (Some (1%nat, OSError "disk full")))
              demo_state 1 (OSError "disk full") eq_refl eq_refl eq_refl)
    as (_ & H & _).
  - vm_compute. discriminate.
  - reflexivity.
  - reflexivity.
  - reflexivity.
  - rewrite H. reflexivity.
Defined.

Lemma interrupted_flush_recovers_witness :
  disk (snd (shutdown demo_shutdown (snd (flush_block demo_cut_tick demo_waiting))))
  = Store.executemany_insert (view demo_waiting) (buffer demo_waiting).
Proof.
  destruct (interrupted_flush_recovers demo_cut_tick demo_shutdown demo_waiting 1)
    as (_ & _ & _ & H & _).
  - reflexivity.
  - discriminate.
  - left. reflexivity.
  - reflexivity.
  - reflexivity.
  - reflexivity.
  - reflexivity.
  - exact H.
Defined.

Lemma purge_of_nothing_witness :
  disk (snd (purge_old_data (demo_purge demo_now) demo_after_first))
  = view demo_after_first.
Proof.
  destruct (purge_of_nothing (demo_purge demo_now) demo_after_first
              eq_refl eq_refl eq_refl) as (_ & H & _).
  apply H. intros r Hr. vm_compute in Hr.
  destruct Hr as [<- | []]. reflexivity.
Defined.

Lemma demo_now_ok : datetime_ok demo_now.
Proof. unfold datetime_ok. simpl. lia. Defined.

Lemma demo_half_ok : datetime_ok demo_half.
Proof. unfold datetime_ok. simpl. lia. Defined.

Lemma timestamps_order_like_instants_witness :
  String.ltb (isoformat_seconds demo_now) (isoformat_seconds demo_half) = true.
Proof.
  destruct (timestamps_order_like_instants demo_now demo_half
              demo_now_ok demo_half_ok) as [_ [_ H]].
  apply H. reflexivity.
Defined.

Lemma full_batch_is_flushed_at_once_witness :
  disk
    (snd ((sample_block (demo_tick demo_now 60 (Ok 2150) None None) ;;
           flush_block (demo_tick demo_now 60 (Ok 2150) None None))
            (set_buffer demo_four demo_state)))
  = (view demo_state ++ demo_four ++ [demo_first])%list.
Proof.
  destruct (full_batch_is_flushed_at_once
              (demo_tick demo_now 60 (Ok 2150) None None)
              (set_buffer demo_four demo_state)
              2150 101325 4500) as (_ & _ & _ & H & _).
  - reflexivity.
  - reflexivity.
  - reflexivity.
  - reflexivity.
  - unfold DB_BATCH_SIZE. simpl. lia.
  - reflexivity.
  - reflexivity.
  - apply H. unfold Store.wf. simpl.
    repeat constructor; simpl; intuition discriminate.
Defined.

Lemma export_rows_strictly_ascending_witness :
  NoDup (map timestamp (export_rows (demo_export demo_now) demo_state)).
Proof.
  destruct (export_rows_strictly_ascending (demo_export demo_now) demo_state)
    as (_ & H & _).
  - exact demo_state_wf.
  - exact H.
Defined.

Lemma only_the_purge_deletes_witness :
  In demo_recent
     (disk (snd (tick (demo_tick demo_now 61 (Ok 2150) None None)
                      demo_after_first))).
Proof.
  apply (only_the_purge_deletes (demo_tick demo_now 61 (Ok 2150) None None)
                                demo_after_first).
  - reflexivity.
  - intros r Hr. exact Hr.
  - vm_compute. auto.
Defined.

Lemma export_twice_same_file_witness :
  csv_last_week
    (snd (export_last_week (demo_export demo_now)
            (snd (export_last_week (demo_export demo_now) demo_state)))) =
  csv_last_week (snd (export_last_week (demo_export demo_now) demo_state)).
Proof.
  destruct (export_twice_same_file (demo_export demo_now) demo_state
              eq_refl eq_refl eq_refl eq_refl eq_refl eq_refl eq_refl)
    as (_ & H & _).
  exact H.
Defined.


Lemma export_uncaught_witness :
  export_last_week
    (mkExportIn (Some (OSError "Read-only file system")) demo_now
                None None None None None
                (demo_alert demo_now) (demo_alert demo_now))
    demo_state
  = (Raise (OSError "Read-only file system"), demo_state).
Proof.
  destruct (export_uncaught
              (mkExportIn (Some (OSError "Read-only file system")) demo_now
                          None None None None None
                          (demo_alert demo_now) (demo_alert demo_now))
              demo_state) as [H _].
  exact (H _ eq_refl).
Defined.


Lemma clean_stop_is_logged_witness :
  count_stops
    (alerts
       (snd (tick (demo_tick demo_now 60 (Raise (OSError "Remote I/O error"))
                             None None)
                  demo_state)))
  = count_stops (alerts demo_state).
Proof.
  destruct (clean_stop_is_logged [] demo_shutdown demo_state) as [_ H].
  destruct (H (demo_tick demo_now 60 (Raise (OSError "Remote I/O error"))
                         None None)
              [] (OSError "Remote I/O error") _ eq_refl eq_refl)
    as (_ & Hc & _).
  exact Hc.
Defined.
